(** * Vencord webpack interop: module discovery and lazy binding

    A shallow embedding of the webpack module-discovery layer
    ([find], [findAll], [findBulk], [waitFor], [proxyInnerWaitFor],
    [findComponent], [findExportedComponent], [_initWebpack],
    [findModuleId], [findModuleFactory], [extractAndLoadChunks]) and the
    properties its specification states about it.

    Conventions of the embedding.
    - JavaScript values are the inductive [value]; objects and functions are
      references into an object store ([heap]), so identity and aliasing are
      explicit.  Only own enumerable data properties are modelled: accessors
      and the built-in prototypes (Object.prototype and friends) are not.
    - Strings are sequences of code units below 256.
    - Functions written in the source are defunctionalised ([code]): a
      closure is the code of its body plus what it captured.  Functions
      supplied by callers are [CExtern]: opaque, total and free of side
      effects, interpreted by the [extern] field of the [World].
    - Module-level [let] variables, the object store and the observable
      effects (calls of function values, log lines, loader calls) live in
      [State]; operations are computations in the state-and-exception monad
      [M]. *)

From Stdlib Require Import String Ascii List ZArith NArith Bool Lia PeanoNat.
From Stdlib Require Import DecimalString.
Import ListNotations.

Local Open Scope string_scope.
Local Open Scope list_scope.

(** ** Numbers

    A Number is kept as the decimal it denotes, [±mantissa·10^exponent],
    before rounding to a double; what the code under study observes of a
    number is only whether it is NaN or rounds to zero. *)

Inductive number : Type :=
| NaN
| Infinity (negative : bool)
| Decimal (negative : bool) (mantissa : N) (exponent : Z).

(** Round-to-nearest-even sends a positive real to [0] exactly when it is at
    most [2^-1075], half the least subnormal. *)
Definition rounds_to_zero (mantissa : N) (exponent : Z) : bool :=
  (mantissa =? 0)%N
  || ((exponent <? 0)%Z
      && (mantissa * 2 ^ 1075 <=? 10 ^ Z.to_N (- exponent))%N).

(** ToBoolean on a Number: NaN, [+0] and [-0] are falsy. *)
Definition number_truthy (n : number) : bool :=
  match n with
  | NaN => false
  | Infinity _ => true
  | Decimal _ m e => negb (rounds_to_zero m e)
  end.

(** ** Values, closures and the object store *)

Definition loc := nat.

Inductive value : Type :=
| VUndefined
| VNull
| VBool (b : bool)
| VNumber (n : number)
| VBigInt (z : Z)
| VString (s : string)
| VSymbol (id : nat)
| VObject (l : loc)
| VFunction (l : loc) (c : code)
with code : Type :=
| CExtern (id : nat)
    (* a function supplied by a caller of this module *)
| CIdentity
    (* m => m, the default of parse and callback *)
| CNoop
    (* NoopComponent of @utils/react: () => null *)
| CByProps (props : list string)
    (* the closure returned by filters.byProps(...props) *)
| CWrapperComponent (inner : nat)
    (* (props) => <InnerComponent {...props} /> *)
| CGetter (inner : nat)
    (* () => InnerComponent *)
| CFindComponentCb (inner : nat) (parse : value)
    (* the waitFor callback of findComponent *)
| CFindExportedComponentCb (inner : nat) (parse : value) (prop0 : option string)
    (* the waitFor callback of findExportedComponent; prop0 is newProps[0] *)
| CProxyInnerCb (cell : nat) (callback : value)
    (* mod => setInnerValue(callback(mod)) *)
| CProxy (cell : nat).
    (* the proxy of proxyInner() *)

(** Induction over values and the closures nested in them. *)
Scheme value_code_ind := Induction for value Sort Prop
  with code_value_ind := Induction for code Sort Prop.

(** The own enumerable properties of an object, in property order. *)
Definition props := list (string * value).
Definition Heap := list props.

(** typeof *)
Definition typeof (v : value) : string :=
  match v with
  | VUndefined => "undefined"
  | VNull => "object"
  | VBool _ => "boolean"
  | VNumber _ => "number"
  | VBigInt _ => "bigint"
  | VString _ => "string"
  | VSymbol _ => "symbol"
  | VObject _ => "object"
  | VFunction _ _ => "function"
  end.

Definition is_function (v : value) : bool :=
  match v with VFunction _ _ => true | _ => false end.

(** ToBoolean *)
Definition truthy (v : value) : bool :=
  match v with
  | VUndefined | VNull => false
  | VBool b => b
  | VNumber n => number_truthy n
  | VBigInt z => negb (z =? 0)%Z
  | VString s => negb (s =? "")
  | VSymbol _ | VObject _ | VFunction _ _ => true
  end.

(** [v == null] *)
Definition nullish (v : value) : bool :=
  match v with VUndefined | VNull => true | _ => false end.

(** [f === g] for a function [g]: the same function object. *)
Definition same_function (f g : value) : bool :=
  match f, g with
  | VFunction l _, VFunction l' _ => Nat.eqb l l'
  | _, _ => false
  end.

Fixpoint assoc {A : Type} (k : string) (l : list (string * A)) : option A :=
  match l with
  | [] => None
  | (k', a) :: rest => if k' =? k then Some a else assoc k rest
  end.

(** [o[k] = v] on property lists: an existing key keeps its place. *)
Fixpoint set_prop (k : string) (v : value) (ps : props) : props :=
  match ps with
  | [] => [(k, v)]
  | (k', v') :: rest =>
      if k' =? k then (k, v) :: rest else (k', v') :: set_prop k v rest
  end.

Fixpoint update_nth {A : Type} (n : nat) (a : A) (l : list A) : list A :=
  match l, n with
  | [], _ => []
  | _ :: rest, O => a :: rest
  | x :: rest, S n' => x :: update_nth n' a rest
  end.

Definition nat_to_string (n : nat) : string :=
  NilZero.string_of_uint (Nat.to_uint n).

Definition char_at (s : string) (i : nat) : option string :=
  match String.get i s with
  | Some ch => Some (String ch EmptyString)
  | None => None
  end.

(** The index a property key denotes on a string of length [len], if any. *)
Definition string_index (len : nat) (k : string) : option nat :=
  List.find (fun i => k =? nat_to_string i) (seq 0 len).

(** The own enumerable properties [Object.assign] and spread read from a
    source: those of an object, the characters of a string, none of any
    other primitive. *)
Definition own_enumerable (h : Heap) (v : value) : props :=
  match v with
  | VObject l | VFunction l _ => nth l h []
  | VString s =>
      map (fun i => (nat_to_string i,
                     match char_at s i with
                     | Some c => VString c
                     | None => VUndefined
                     end))
          (seq 0 (String.length s))
  | _ => []
  end.

(** [v[k]] for a [v] that is neither undefined nor null. *)
Definition get_own (h : Heap) (v : value) (k : string) : value :=
  match v with
  | VObject l | VFunction l _ =>
      match assoc k (nth l h []) with Some x => x | None => VUndefined end
  | VString s =>
      if k =? "length"
      then VNumber (Decimal false (N.of_nat (String.length s)) 0)
      else match string_index (String.length s) k with
           | Some i => match char_at s i with
                       | Some c => VString c
                       | None => VUndefined
                       end
           | None => VUndefined
           end
  | _ => VUndefined
  end.

(** [v?.[k]] *)
Definition get_opt (h : Heap) (v : value) (k : string) : value :=
  if nullish v then VUndefined else get_own h v k.

(** ** Errors and outcomes *)

Inductive error : Type :=
| Error (message : string)
    (* throw new Error(message) *)
| TypeError (message : string)
    (* raised by the language: calling a non-function, reading a property
       of undefined or null *)
| ThrownValue (v : value).
    (* throw of a value that is not an Error object; a rejection reason *)

Inductive Outcome (A : Type) : Type :=
| Return (a : A)
| Throw (e : error).

Arguments Return {A} a.
Arguments Throw {A} e.

(** ** The loader's side

    [Cache] is [wreq.c], the registry of loaded modules: its keys in for-in
    order, each with its module record.  The keys of an object are distinct,
    so going through the pairs in order is the source's
    [for (const key in cache) { const mod = cache[key]; ... }].
    A factory of [wreq.m] is kept as the text [toString()] gives for it. *)

Definition Cache := list (string * value).

(** What [str.match(re)] yields: [None] for null, or the array of the whole
    match and the capture groups, a group that took no part being
    undefined. *)
Record RegExp : Type := mkRegExp {
  regexp_match : string -> option (list (option string))
}.

Record WebpackInstance : Type := mkWebpackInstance {
  wreq_c : Cache;
    (* wreq.c *)
  wreq_m : list (string * string);
    (* wreq.m: module id to factory source *)
  wreq_el : string -> option error;
    (* wreq.el(id): None when the promise fulfils, the reason when it
       rejects *)
  wreq_require : string -> Outcome value
    (* wreq(id) *)
}.

(** [window.webpackChunkdiscord_app]: what pushing a chunk with a runtime
    callback does.  Webpack's own push calls the callback with the require
    function; the push of a plain array calls nothing. *)
Record ChunkArray : Type := mkChunkArray {
  push_runtime : option WebpackInstance
}.

(** ** Observable effects *)

Inductive LogLevel : Type := LevelWarn | LevelError.

Inductive LogContext : Type :=
| NoContext
| FilterContext (filter : list value)
    (* "Filter:", filter *)
| CodeMatcherContext (code : list string) (matcher : RegExp).
    (* "Code:", code, "Matcher:", matcher *)

Inductive Event : Type :=
| Called (f : value) (args : list value)
    (* the function value f was applied to args *)
| Logged (level : LogLevel) (message : string) (context : LogContext)
    (* logger.warn / logger.error with an Error of that message *)
| ChunkLoaded (id : string)
    (* wreq.el(id) *)
| Required (id : string).
    (* wreq(id) *)

(** ** State *)

Record State : Type := mkState {
  heap : Heap;
    (* the object store *)
  bindings : list value;
    (* variables captured by closures: each InnerComponent, each proxy's
       inner value *)
  wreq : option WebpackInstance;
    (* export let wreq; None while undefined *)
  cache : option Cache;
    (* export let cache; None while undefined *)
  devToolsOpen : bool;
  waitForSubscriptions : list (value * value);
    (* new Map<FilterFn, ModCallbackFn>(), in insertion order *)
  webpackSearchHistory : list (string * list value);
  events : list Event
    (* what has been observed so far, oldest first *)
}.

(** What the module takes from outside: the build flag, the meaning of the
    functions callers pass in, the imported NoopComponent, and the regular
    expression helpers. *)
Record World : Type := mkWorld {
  IS_DEV : bool;
  extern : nat -> Heap -> list value -> value;
  NoopComponent_loc : loc;
  canonicalizeMatch : RegExp -> RegExp;
    (* @utils/patches *)
  defaultMatcher : RegExp
    (* the RegExp literal that is the default of matcher *)
}.

Definition NoopComponent (W : World) : value :=
  VFunction (NoopComponent_loc W) CNoop.

Definition with_heap (h : Heap) (s : State) : State :=
  mkState h (bindings s) (wreq s) (cache s) (devToolsOpen s)
          (waitForSubscriptions s) (webpackSearchHistory s) (events s).

Definition with_bindings (b : list value) (s : State) : State :=
  mkState (heap s) b (wreq s) (cache s) (devToolsOpen s)
          (waitForSubscriptions s) (webpackSearchHistory s) (events s).

Definition with_wreq (w : option WebpackInstance) (s : State) : State :=
  mkState (heap s) (bindings s) w (cache s) (devToolsOpen s)
          (waitForSubscriptions s) (webpackSearchHistory s) (events s).

Definition with_cache (c : option Cache) (s : State) : State :=
  mkState (heap s) (bindings s) (wreq s) c (devToolsOpen s)
          (waitForSubscriptions s) (webpackSearchHistory s) (events s).

Definition with_subscriptions (m : list (value * value)) (s : State) : State :=
  mkState (heap s) (bindings s) (wreq s) (cache s) (devToolsOpen s)
          m (webpackSearchHistory s) (events s).

Definition with_history (hi : list (string * list value)) (s : State) : State :=
  mkState (heap s) (bindings s) (wreq s) (cache s) (devToolsOpen s)
          (waitForSubscriptions s) hi (events s).

Definition with_events (ev : list Event) (s : State) : State :=
  mkState (heap s) (bindings s) (wreq s) (cache s) (devToolsOpen s)
          (waitForSubscriptions s) (webpackSearchHistory s) ev.

(** ** The monad of operations *)

Definition M (A : Type) : Type := State -> Outcome A * State.

Definition ret {A : Type} (a : A) : M A := fun s => (Return a, s).

Definition throw {A : Type} (e : error) : M A := fun s => (Throw e, s).

Definition bind {A B : Type} (c : M A) (k : A -> M B) : M B :=
  fun s =>
    match c s with
    | (Return a, s') => k a s'
    | (Throw e, s') => (Throw e, s')
    end.

Definition gets {A : Type} (f : State -> A) : M A := fun s => (Return (f s), s).

Definition modify (f : State -> State) : M unit := fun s => (Return tt, f s).

Declare Scope js_scope.
Delimit Scope js_scope with js.

Notation "x <- c1 ;; c2" := (bind c1 (fun x => c2))
  (at level 61, c1 at next level, right associativity) : js_scope.
Notation "c1 ;; c2" := (bind c1 (fun _ => c2))
  (at level 61, right associativity) : js_scope.

Local Open Scope js_scope.

(** The state after [evs] have been observed. *)
Definition log (evs : list Event) (s : State) : State :=
  with_events (events s ++ evs) s.

Definition emit (e : Event) : M unit := modify (log [e]).

(** An object or function literal: a fresh location holding [ps]. *)
Definition alloc (ps : props) : M loc :=
  fun s => (Return (length (heap s)), with_heap (heap s ++ [ps]) s).

(** [let x = v] captured by a closure. *)
Definition new_binding (v : value) : M nat :=
  fun s => (Return (length (bindings s)), with_bindings (bindings s ++ [v]) s).

Definition read_binding (i : nat) : M value :=
  gets (fun s => nth i (bindings s) VUndefined).

Definition write_binding (i : nat) (v : value) : M unit :=
  modify (fun s => with_bindings (update_nth i v (bindings s)) s).

(** [o[k] = v] on the object at [l]. *)
Definition set_own (l : loc) (k : string) (v : value) : M unit :=
  modify (fun s =>
            with_heap (update_nth l (set_prop k v (nth l (heap s) [])) (heap s)) s).

(** [v[k]]: a TypeError on undefined and null. *)
Definition get (v : value) (k : string) : M value :=
  if nullish v
  then throw (TypeError "Cannot read properties of undefined or null")
  else h <- gets heap ;; ret (get_own h v k).

(** [Object.assign(target, source)].  Writing through the wrapper of a
    primitive is lost, except that the characters and the length of a string
    are read-only, and a write to them throws. *)
Definition object_assign (target source : value) : M value :=
  h <- gets heap ;;
  let ps := own_enumerable h source in
  match target with
  | VUndefined | VNull =>
      throw (TypeError "Cannot convert undefined or null to object")
  | VObject l | VFunction l _ =>
      fold_left (fun acc kv => acc ;; set_own l (fst kv) (snd kv)) ps (ret tt) ;;
      ret target
  | VString t =>
      if existsb (fun kv =>
                    (fst kv =? "length")%string
                    || match string_index (String.length t) (fst kv) with
                       | Some _ => true
                       | None => false
                       end) ps
      then throw (TypeError "Cannot assign to read only property")
      else ret target
  | _ => ret target
  end.

(** ** Calling function values *)

Definition is_undefined (v : value) : bool :=
  match v with VUndefined => true | _ => false end.

(** The body of the closure of [filters.byProps(...props)]:
    [m => m?.[props[0]] !== void 0] for one name,
    [m => props.every(p => m?.[p] !== void 0)] otherwise. *)
Definition byProps_test (h : Heap) (props : list string) (m : value) : bool :=
  match props with
  | [p] => negb (is_undefined (get_opt h m p))
  | _ => forallb (fun p => negb (is_undefined (get_opt h m p))) props
  end.

(** Modelled from the spec: the setter of [proxyInner()] of
    @utils/proxyInner, which is not among the sources.  A deferred value is a
    placeholder plus an inner slot for the real value; the setter fills the
    slot. *)
Definition setInnerValue (cell : nat) (v : value) : M value :=
  write_binding cell v ;; ret VUndefined.

(** [call W f args] is the application [f(...args)]; [run] is the body of a
    closure.  The element [<InnerComponent {...props} />] is kept as an
    object holding its [type] and a copy of the [props]. *)
Fixpoint call (W : World) (f : value) (args : list value) {struct f} : M value :=
  match f with
  | VFunction _ c => emit (Called f args) ;; run W c args
  | _ => throw (TypeError (typeof f ++ " is not a function"))
  end
with run (W : World) (c : code) (args : list value) {struct c} : M value :=
  let arg := nth 0 args VUndefined in
  match c with
  | CExtern id => h <- gets heap ;; ret (extern W id h args)
  | CIdentity => ret arg
  | CNoop => ret VNull
  | CByProps props => h <- gets heap ;; ret (VBool (byProps_test h props arg))
  | CWrapperComponent inner =>
      InnerComponent <- read_binding inner ;;
      h <- gets heap ;;
      p <- alloc (own_enumerable h arg) ;;
      e <- alloc [("type", InnerComponent); ("props", VObject p)] ;;
      ret (VObject e)
  | CGetter inner => read_binding inner
  | CFindComponentCb inner parse =>
      parsedComponent <- call W parse [arg] ;;
      write_binding inner parsedComponent ;;
      InnerComponent <- read_binding inner ;;
      object_assign InnerComponent parsedComponent ;;
      ret VUndefined
  | CFindExportedComponentCb inner parse prop0 =>
      component <- get arg (match prop0 with
                            | Some p => p
                            | None => "undefined"
                            end) ;;
      parsedComponent <- call W parse [component] ;;
      write_binding inner parsedComponent ;;
      InnerComponent <- read_binding inner ;;
      object_assign InnerComponent parsedComponent ;;
      ret VUndefined
  | CProxyInnerCb cell callback =>
      v <- call W callback [arg] ;;
      setInnerValue cell v
  | CProxy _ =>
      (* a call through a proxy is forwarded by @utils/proxyInner; nothing
         in this module calls one *)
      throw (TypeError "proxy called before its inner value was set")
  end.

(** A closure expression: a new function object without own properties. *)
Definition closure (c : code) : M value :=
  l <- alloc [] ;; ret (VFunction l c).

(** An array literal, as the object of its indices. *)
Definition alloc_array (vs : list value) : M value :=
  l <- alloc (combine (map nat_to_string (seq 0 (length vs))) vs) ;;
  ret (VObject l).

(** ** filters *)

Definition filters_byProps (props : list string) : M value :=
  arr <- alloc_array (map VString props) ;;
  l <- alloc [] ;;
  set_own l "$$vencordProps" arr ;;
  ret (VFunction l (CByProps props)).

(** ** Reporting a failed search *)

Definition strict (W : World) (s : State) : bool :=
  IS_DEV W && negb (devToolsOpen s).

Definition handleModuleNotFound (W : World) (method : string)
    (filter : list value) : M unit :=
  let err := ("webpack." ++ method ++ " found no module")%string in
  emit (Logged LevelError err (FilterContext filter)) ;;
  st <- gets (strict W) ;;
  if st then throw (Error err) else ret tt.

Definition webpackSearchHistory_push (kind : string) (args : list value) : M unit :=
  modify (fun s => with_history (webpackSearchHistory s ++ [(kind, args)]) s).

(** ** find and findAll

    [traceFunction(name, f)] of ../debug/Tracer only times the call of [f];
    [find] and [findBulk] are the functions it wraps. *)

Definition entries_of (c : option Cache) : Cache :=
  match c with Some entries => entries | None => [] end.

Fixpoint find_loop (W : World) (filter : value) (entries : Cache)
    : M (option value) :=
  match entries with
  | [] => ret None
  | (_, mod_) :: rest =>
      h <- gets heap ;;
      if negb (truthy (get_opt h mod_ "exports")) then find_loop W filter rest
      else
        exports <- get mod_ "exports" ;;
        r <- call W filter [exports] ;;
        if truthy r then
          exports <- get mod_ "exports" ;; ret (Some exports)
        else
          exports <- get mod_ "exports" ;;
          default <- get exports "default" ;;
          if truthy default then
            r <- call W filter [default] ;;
            if truthy r then
              exports <- get mod_ "exports" ;;
              default <- get exports "default" ;;
              ret (Some default)
            else find_loop W filter rest
          else find_loop W filter rest
  end.

Definition find (W : World) (filter : value) (isIndirect : bool) : M value :=
  if negb (typeof filter =? "function")
  then throw (Error ("Invalid filter. Expected a function got " ++ typeof filter))
  else
    c <- gets cache ;;
    r <- find_loop W filter (entries_of c) ;;
    match r with
    | Some v => ret v
    | None =>
        (if negb isIndirect
         then handleModuleNotFound W "find" [filter]
         else ret tt) ;;
        ret VNull
    end.

Fixpoint findAll_loop (W : World) (filter : value) (entries : Cache)
    (acc : list value) : M (list value) :=
  match entries with
  | [] => ret acc
  | (_, mod_) :: rest =>
      h <- gets heap ;;
      if negb (truthy (get_opt h mod_ "exports")) then findAll_loop W filter rest acc
      else
        exports <- get mod_ "exports" ;;
        r <- call W filter [exports] ;;
        acc <- (if truthy r
                then exports <- get mod_ "exports" ;; ret (acc ++ [exports])
                else ret acc) ;;
        exports <- get mod_ "exports" ;;
        default <- get exports "default" ;;
        if truthy default then
          r <- call W filter [default] ;;
          if truthy r then
            exports <- get mod_ "exports" ;;
            default <- get exports "default" ;;
            findAll_loop W filter rest (acc ++ [default])
          else findAll_loop W filter rest acc
        else findAll_loop W filter rest acc
  end.

Definition findAll (W : World) (filter : value) : M (list value) :=
  if negb (typeof filter =? "function")
  then throw (Error ("Invalid filter. Expected a function got " ++ typeof filter))
  else
    c <- gets cache ;;
    findAll_loop W filter (entries_of c) [].

(** ** waitFor *)

(** [Map.prototype.set] on a map whose keys are functions. *)
Fixpoint map_set (k v : value) (m : list (value * value)) : list (value * value) :=
  match m with
  | [] => [(k, v)]
  | (k', v') :: rest =>
      if same_function k' k then (k', v) :: rest else (k', v') :: map_set k v rest
  end.

Fixpoint map_get (k : value) (m : list (value * value)) : option value :=
  match m with
  | [] => None
  | (k', v') :: rest => if same_function k' k then Some v' else map_get k rest
  end.

Definition waitForSubscriptions_set (filter callback : value) : M unit :=
  modify (fun s => with_subscriptions
                     (map_set filter callback (waitForSubscriptions s)) s).

Definition waitFor (W : World) (filter callback : value) (isIndirect : bool)
    : M value :=
  if negb (typeof filter =? "function")
  then throw (Error ("Invalid filter. Expected a function got " ++ typeof filter))
  else if negb (typeof callback =? "function")
  then throw (Error ("Invalid callback. Expected a function got " ++ typeof callback))
  else
    (if IS_DEV W && negb isIndirect
     then webpackSearchHistory_push "waitFor" [filter]
     else ret tt) ;;
    c <- gets cache ;;
    match c with
    | Some _ =>
        existing <- find W filter true ;;
        if truthy existing then call W callback [existing]
        else waitForSubscriptions_set filter callback ;; ret VUndefined
    | None => waitForSubscriptions_set filter callback ;; ret VUndefined
    end.

(** ** proxyInnerWaitFor *)

(** A parameter with a default: the default is taken when the argument is
    undefined, which is also what an omitted argument is. *)
Definition default_arg (v : value) (default : M value) : M value :=
  if is_undefined v then default else ret v.

(** Modelled from the spec: [proxyInner()] of @utils/proxyInner, which is not
    among the sources.  It makes a deferred value: a placeholder (the proxy)
    plus an inner slot, empty at first, read as [proxy[proxyInnerValue]] and
    filled by [setInnerValue]. *)
Definition proxyInner : M (value * nat) :=
  cell <- new_binding VUndefined ;;
  l <- alloc [] ;;
  ret (VFunction l (CProxy cell), cell).

Definition proxyInnerWaitFor (W : World) (filter callback : value)
    (isIndirect : bool) : M value :=
  callback <- default_arg callback (closure CIdentity) ;;
  if negb (typeof filter =? "function")
  then throw (Error ("Invalid filter. Expected a function got " ++ typeof filter))
  else if negb (typeof callback =? "function")
  then throw (Error ("Invalid callback. Expected a function got " ++ typeof callback))
  else
    (if IS_DEV W && negb isIndirect
     then webpackSearchHistory_push "proxyInnerWaitFor" [filter]
     else ret tt) ;;
    pc <- proxyInner ;;
    let (proxy, cell) := pc in
    cb <- closure (CProxyInnerCb cell callback) ;;
    waitFor W filter cb true ;;
    innerValue <- read_binding cell ;;
    if negb (nullish innerValue) then ret innerValue else ret proxy.

(** ** findComponent and findExportedComponent *)

Definition findComponent (W : World) (filter parse : value) (isIndirect : bool)
    : M value :=
  parse <- default_arg parse (closure CIdentity) ;;
  if negb (typeof filter =? "function")
  then throw (Error ("Invalid filter. Expected a function got " ++ typeof filter))
  else if negb (typeof parse =? "function")
  then throw (Error ("Invalid component parse. Expected a function got "
                     ++ typeof parse))
  else
    (if IS_DEV W && negb isIndirect
     then webpackSearchHistory_push "findComponent" [filter]
     else ret tt) ;;
    inner <- new_binding (NoopComponent W) ;;
    w <- alloc [] ;;
    let WrapperComponent := VFunction w (CWrapperComponent inner) in
    getter <- closure (CGetter inner) ;;
    set_own w "$$vencordGetter" getter ;;
    cb <- closure (CFindComponentCb inner parse) ;;
    waitFor W filter cb true ;;
    InnerComponent <- read_binding inner ;;
    if negb (same_function InnerComponent (NoopComponent W))
    then ret InnerComponent
    else ret WrapperComponent.

(** The arguments are the property names, then possibly the parse function:
    [parse] is that trailing function when there is one. *)
Definition findExportedComponent (W : World) (props : list string)
    (parse : option (loc * code)) : M value :=
  parse <- match parse with
           | Some (l, c) => ret (VFunction l c)
           | None => closure CIdentity
           end ;;
  let newProps := props in
  (if IS_DEV W
   then webpackSearchHistory_push "findExportedComponent" (map VString props)
   else ret tt) ;;
  inner <- new_binding (NoopComponent W) ;;
  w <- alloc [] ;;
  let WrapperComponent := VFunction w (CWrapperComponent inner) in
  getter <- closure (CGetter inner) ;;
  set_own w "$$vencordGetter" getter ;;
  filter <- filters_byProps newProps ;;
  cb <- closure (CFindExportedComponentCb inner parse (hd_error newProps)) ;;
  waitFor W filter cb true ;;
  InnerComponent <- read_binding inner ;;
  if negb (same_function InnerComponent (NoopComponent W))
  then ret InnerComponent
  else ret WrapperComponent.

(** ** findBulk *)

(** The variables of the scan: the array of filters, spliced in place, the
    sparse array of results ([None] is a hole) and the count of matches. *)
Record Bulk : Type := mkBulk {
  filterFns : list value;
  results : list (option value);
  found : nat
}.

Fixpoint remove_nth {A : Type} (n : nat) (l : list A) : list A :=
  match l, n with
  | [], _ => []
  | _ :: rest, O => rest
  | x :: rest, S n' => x :: remove_nth n' rest
  end.

(** [results[j] = v; filterFns.splice(j--, 1); ++found] *)
Definition record_match (j : nat) (v : value) (b : Bulk) : Bulk :=
  mkBulk (remove_nth j (filterFns b))
         (update_nth j (Some v) (results b))
         (S (found b)).

(** How the inner loop over the filters leaves: [true] is [break outer],
    [false] goes on with the next module. *)
Fixpoint findBulk_filters (W : World) (length : nat) (mod_ : value)
    (todo j : nat) (b : Bulk) : M (Bulk * bool) :=
  match todo with
  | O => ret (b, false)
  | S todo' =>
      let filter := nth j (filterFns b) VUndefined in
      exports <- get mod_ "exports" ;;
      r <- call W filter [exports] ;;
      if truthy r then
        exports <- get mod_ "exports" ;;
        let b' := record_match j exports b in
        ret (b', found b' =? length)%nat
      else
        exports <- get mod_ "exports" ;;
        default <- get exports "default" ;;
        if truthy default then
          r <- call W filter [default] ;;
          if truthy r then
            exports <- get mod_ "exports" ;;
            default <- get exports "default" ;;
            let b' := record_match j default b in
            ret (b', found b' =? length)%nat
          else findBulk_filters W length mod_ todo' (S j) b
        else findBulk_filters W length mod_ todo' (S j) b
  end.

Fixpoint findBulk_loop (W : World) (length : nat) (entries : Cache) (b : Bulk)
    : M Bulk :=
  match entries with
  | [] => ret b
  | (_, mod_) :: rest =>
      h <- gets heap ;;
      if negb (truthy (get_opt h mod_ "exports")) then findBulk_loop W length rest b
      else
        r <- findBulk_filters W length mod_ length 0 b ;;
        let (b', break_outer) := r in
        if break_outer then ret b' else findBulk_loop W length rest b'
  end.

(** [findBulk] returns the array of results, or, for a single filter outside
    development builds, what [find] returns.  [filterFns] is a rest
    parameter, so the test [!Array.isArray(filterFns)] at the head of the
    function never passes. *)
Inductive BulkResult : Type :=
| BulkArray (results : list (option value))
| BulkSingle (v : value).

Definition findBulk (W : World) (filterFns : list value) : M BulkResult :=
  let length := List.length filterFns in
  match length with
  | 0 => throw (Error "Expected at least two filters.")
  | 1 =>
      if IS_DEV W
      then throw (Error "bulk called with only one filter. Use find")
      else v <- find W (nth 0 filterFns VUndefined) false ;; ret (BulkSingle v)
  | _ =>
      c <- gets cache ;;
      b <- findBulk_loop W length (entries_of c)
             (mkBulk filterFns (repeat None length) 0) ;;
      (if negb (found b =? length)%nat then
         let err := ("Got " ++ nat_to_string length ++ " filters, but only found "
                     ++ nat_to_string (found b) ++ " modules!")%string in
         if IS_DEV W then
           d <- gets devToolsOpen ;;
           if negb d then throw (Error err) else ret tt
         else emit (Logged LevelWarn err NoContext)
       else ret tt) ;;
      ret (BulkArray (results b))
  end.

(** ** _initWebpack *)

Definition _initWebpack (instance : ChunkArray) : M bool :=
  c <- gets cache ;;
  match c with
  | Some _ => throw (ThrownValue (VString "no."))
  | None =>
      match push_runtime instance with
      | Some r => modify (with_wreq (Some r))
      | None => ret tt
      end ;;
      w <- gets wreq ;;
      match w with
      | None => ret false
      | Some r => modify (with_cache (Some (wreq_c r))) ;; ret true
      end
  end.

(** ** Searching the factories *)

(** [s.includes(c)] *)
Fixpoint includes (s c : string) : bool :=
  if String.prefix c s then true
  else match s with
       | EmptyString => false
       | String _ rest => includes rest c
       end.

Definition newline : string := String (ascii_of_nat 10) EmptyString.

Fixpoint findModuleId_loop (code : list string) (factories : list (string * string))
    : option string :=
  match factories with
  | [] => None
  | (id, str) :: rest =>
      if forallb (includes str) code then Some id
      else findModuleId_loop code rest
  end.

Definition findModuleId (W : World) (code : list string) : M (option string) :=
  w <- gets wreq ;;
  match w with
  | None => throw (TypeError "Cannot read properties of undefined")
  | Some r =>
      match findModuleId_loop code (wreq_m r) with
      | Some id => ret (Some id)
      | None =>
          let err := ("Didn't find module with code(s):" ++ newline
                      ++ String.concat newline code)%string in
          (if IS_DEV W then
             d <- gets devToolsOpen ;;
             if negb d then throw (Error err) else ret tt
           else emit (Logged LevelWarn err NoContext)) ;;
          ret None
      end
  end.

(** The factory, as its source text, or [None] for null. *)
Definition findModuleFactory (W : World) (code : list string)
    : M (option string) :=
  id <- findModuleId W code ;;
  match id with
  | None => ret None
  | Some id =>
      if (id =? "")%string then ret None
      else
        w <- gets wreq ;;
        match w with
        | None => throw (TypeError "Cannot read properties of undefined")
        | Some r => ret (assoc id (wreq_m r))
        end
  end.

(** ** Number(string)

    The conversion of a string to a Number: white space is trimmed, the
    empty string is [0], then the whole of what is left has to be a
    hexadecimal, octal or binary integer literal without sign, or a signed
    decimal literal or [Infinity]; anything else is NaN. *)

Definition is_whitespace (ch : ascii) : bool :=
  existsb (Nat.eqb (nat_of_ascii ch)) [9; 10; 11; 12; 13; 32; 160]%nat.

Fixpoint trim_start (s : string) : string :=
  match s with
  | EmptyString => EmptyString
  | String ch rest => if is_whitespace ch then trim_start rest else s
  end.

Fixpoint string_rev (s : string) : string :=
  match s with
  | EmptyString => EmptyString
  | String ch rest => (string_rev rest ++ String ch EmptyString)%string
  end.

Definition trim (s : string) : string :=
  string_rev (trim_start (string_rev (trim_start s))).

Definition digit_value (ch : ascii) : option N :=
  let n := N_of_ascii ch in
  if ((48 <=? n) && (n <=? 57))%N then Some (n - 48)%N
  else if ((97 <=? n) && (n <=? 122))%N then Some (n - 87)%N
  else if ((65 <=? n) && (n <=? 90))%N then Some (n - 55)%N
  else None.

(** The longest run of digits of [base] at the head of [s]: the number read
    onto [acc], how many digits were read, and the rest. *)
Fixpoint read_digits (base : N) (s : string) (acc : N) (count : nat)
    : N * nat * string :=
  match s with
  | EmptyString => (acc, count, s)
  | String ch rest =>
      match digit_value ch with
      | Some d =>
          if (d <? base)%N
          then read_digits base rest (acc * base + d)%N (S count)
          else (acc, count, s)
      | None => (acc, count, s)
      end
  end.

Definition read_sign (s : string) : bool * string :=
  match s with
  | String "+" rest => (false, rest)
  | String "-" rest => (true, rest)
  | _ => (false, s)
  end.

(** [0x], [0o] and [0b] literals; [None] when [s] has no such prefix. *)
Definition non_decimal_literal (s : string) : option number :=
  match s with
  | String "0" (String p rest) =>
      let base :=
        match p with
        | "x" | "X" => Some 16
        | "o" | "O" => Some 8
        | "b" | "B" => Some 2
        | _ => None
        end%char%N in
      match base with
      | Some b =>
          let '(v, count, rest') := read_digits b rest 0 0 in
          if (count =? 0)%nat || negb (rest' =? "")%string
          then Some NaN
          else Some (Decimal false v 0)
      | None => None
      end
  | _ => None
  end.

Definition decimal_literal (s : string) : number :=
  let (negative, s1) := read_sign s in
  if (s1 =? "Infinity")%string then Infinity negative
  else
    let '(i, ni, r1) := read_digits 10 s1 0 0 in
    let '(m, nf, r2) :=
      match r1 with
      | String "." r => read_digits 10 r i 0
      | _ => (i, 0%nat, r1)
      end in
    if (ni + nf =? 0)%nat then NaN
    else
      match r2 with
      | EmptyString => Decimal negative m (- Z.of_nat nf)
      | String ch r3 =>
          if ((ch =? "e") || (ch =? "E"))%char then
            let (eneg, r4) := read_sign r3 in
            let '(e, ne, r5) := read_digits 10 r4 0 0 in
            if (ne =? 0)%nat || negb (r5 =? "")%string then NaN
            else Decimal negative m
                   ((if eneg then - Z.of_N e else Z.of_N e) - Z.of_nat nf)
          else NaN
      end.

Definition Number (s : string) : number :=
  let t := trim s in
  if (t =? "")%string then Decimal false 0 0
  else match non_decimal_literal t with
       | Some n => n
       | None => decimal_literal t
       end.

(** ** extractAndLoadChunks

    The function is async: [Return v] is the promise fulfilled with [v],
    [Throw e] the promise rejected with [e]. *)

(** [!id || !Number(id)] for [const [, id] = match] *)
Definition invalid_entry_point (id : option string) : bool :=
  match id with
  | None => true
  | Some id => negb (truthy (VString id)) || negb (number_truthy (Number id))
  end.

Definition extractAndLoadChunks (W : World) (code : list string)
    (matcher : option RegExp) : M value :=
  let matcher := match matcher with
                 | Some re => re
                 | None => defaultMatcher W
                 end in
  module <- findModuleFactory W code ;;
  match module with
  | None =>
      emit (Logged LevelWarn "extractAndLoadChunks: Couldn't find module factory"
              (CodeMatcherContext code matcher)) ;;
      ret VUndefined
  | Some source =>
      match regexp_match (canonicalizeMatch W matcher) source with
      | None =>
          let err := "extractAndLoadChunks: Couldn't find entry point id in module factory code" in
          emit (Logged LevelWarn err (CodeMatcherContext code matcher)) ;;
          st <- gets (strict W) ;;
          if st then throw (Error err) else ret VUndefined
      | Some groups =>
          let id := nth 1 groups None in
          if invalid_entry_point id then
            let err := "extractAndLoadChunks: Matcher didn't return a capturing group with the entry point, or the entry point returned wasn't a number" in
            emit (Logged LevelWarn err (CodeMatcherContext code matcher)) ;;
            st <- gets (strict W) ;;
            if st then throw (Error err) else ret VUndefined
          else
            let id := match id with Some id => id | None => "" end in
            w <- gets wreq ;;
            match w with
            | None => throw (TypeError "Cannot read properties of undefined")
            | Some r =>
                emit (ChunkLoaded id) ;;
                match wreq_el r id with
                | Some reason => throw reason
                | None =>
                    emit (Required id) ;;
                    match wreq_require r id with
                    | Return v => ret v
                    | Throw e => throw e
                    end
                end
            end
      end
  end.

(** ** What the properties are stated with *)

(** The closures whose call reads the store and nothing else. *)
Definition pure_code (c : code) : bool :=
  match c with
  | CExtern _ | CIdentity | CNoop | CByProps _ => true
  | _ => false
  end.

(** A predicate: a function value with a pure body, as callers pass to the
    search operations and as [filters.byProps] builds. *)
Definition is_predicate (f : value) : bool :=
  match f with
  | VFunction _ c => pure_code c
  | _ => false
  end.

(** The result of a pure body. *)
Definition apply_pure (W : World) (h : Heap) (c : code) (args : list value)
    : value :=
  match c with
  | CExtern id => extern W id h args
  | CIdentity => nth 0 args VUndefined
  | CByProps props => VBool (byProps_test h props (nth 0 args VUndefined))
  | _ => VNull
  end.

(** [P(v)] is true. *)
Definition satisfies (W : World) (h : Heap) (P v : value) : bool :=
  match P with
  | VFunction _ c => truthy (apply_pure W h c [v])
  | _ => false
  end.

(** The values a scan of the registry offers to a predicate, in order: of
    each entry the exports when truthy, then the exports' default when that
    is truthy too. *)
Definition candidates_of (h : Heap) (mod_ : value) : list value :=
  let exports := get_opt h mod_ "exports" in
  if truthy exports then
    let default := get_own h exports "default" in
    exports :: (if truthy default then [default] else [])
  else [].

Definition candidates (h : Heap) (entries : Cache) : list value :=
  flat_map (fun kv => candidates_of h (snd kv)) entries.

(** The values of the registry as the specification speaks of them: of each
    entry the exports and the exports' default, whatever they are. *)
Definition exported_values (h : Heap) (entries : Cache) : list value :=
  flat_map (fun kv => let exports := get_opt h (snd kv) "exports" in
                      [exports; get_opt h exports "default"]) entries.

(** The candidates a scan looks at before it stops: up to the first that
    passes [p], that one included. *)
Fixpoint tested (p : value -> bool) (l : list value) : list value :=
  match l with
  | [] => []
  | v :: rest => if p v then [v] else v :: tested p rest
  end.

Definition test_events (P : value) (vs : list value) : list Event :=
  map (fun v => Called P [v]) vs.

Definition not_found_message : string := "webpack.find found no module".

(** Running [_initWebpack] on each of a list of chunk arrays in turn. *)
Fixpoint initialise_all (instances : list ChunkArray) (s : State) : State :=
  match instances with
  | [] => s
  | i :: rest => initialise_all rest (snd (_initWebpack i s))
  end.

(** The messages of [extractAndLoadChunks] and of [findModuleId]. *)
Definition no_factory_message : string :=
  "extractAndLoadChunks: Couldn't find module factory".

Definition no_match_message : string :=
  "extractAndLoadChunks: Couldn't find entry point id in module factory code".

Definition bad_capture_message : string :=
  "extractAndLoadChunks: Matcher didn't return a capturing group with the entry point, or the entry point returned wasn't a number".

Definition no_module_message (code : list string) : string :=
  "Didn't find module with code(s):" ++ newline ++ String.concat newline code.

(** A captured group that is not a numeric id, as the specification speaks
    of it: there is none, or it is empty, or it does not convert to a
    number. *)
Definition not_a_numeric_id (id : option string) : bool :=
  match id with
  | None => true
  | Some t => (t =? "")%string
              || match Number t with NaN => true | _ => false end
  end.

(** What a call of a function value leaves as it was: the module-level
    variables.  It can allocate, write the variables closures captured and
    leave events. *)
Definition frame (s s' : State) : Prop :=
  wreq s' = wreq s
  /\ cache s' = cache s
  /\ devToolsOpen s' = devToolsOpen s
  /\ waitForSubscriptions s' = waitForSubscriptions s
  /\ webpackSearchHistory s' = webpackSearchHistory s.

Definition preserves {A : Type} (c : M A) : Prop :=
  forall s, frame s (snd (c s)).

(** The object a value refers to. *)
Definition loc_of (v : value) : option loc :=
  match v with
  | VObject l | VFunction l _ => Some l
  | _ => None
  end.

(** [keeps w c]: the computation [c] leaves the object at [w], once it is
    there, with the properties it has. *)
Definition keeps {A : Type} (w : loc) (c : M A) : Prop :=
  forall s, w < List.length (heap s) ->
            w < List.length (heap (snd (c s)))
            /\ nth w (heap (snd (c s))) [] = nth w (heap s) [].

(** ** search

    [search(...filters)]: the factories whose source every filter matches,
    keyed by id, in the order of [wreq.m].  A filter is a string, matched by
    [includes], or a regular expression, matched by [test]; for a regular
    expression without the global and sticky flags, [re.test(str)] is
    [str.match(re) !== null]. *)

Inductive SearchFilter : Type :=
| FilterString (s : string)
| FilterRegExp (re : RegExp).

Definition regexp_test (re : RegExp) (str : string) : bool :=
  match regexp_match re str with
  | Some _ => true
  | None => false
  end.

(** One round of the inner loop: [false] is [continue outer]. *)
Definition search_filter_passes (str : string) (filter : SearchFilter) : bool :=
  match filter with
  | FilterString s => includes str s
  | FilterRegExp re => regexp_test re str
  end.

(** [results[id] = factory] on the object of results. *)
Fixpoint results_set (id factory : string) (results : list (string * string))
    : list (string * string) :=
  match results with
  | [] => [(id, factory)]
  | (id', f') :: rest =>
      if (id' =? id)%string then (id, factory) :: rest
      else (id', f') :: results_set id factory rest
  end.

Fixpoint search_loop (filters : list SearchFilter)
    (factories results : list (string * string)) : list (string * string) :=
  match factories with
  | [] => results
  | (id, factory) :: rest =>
      if forallb (search_filter_passes factory) filters
      then search_loop filters rest (results_set id factory results)
      else search_loop filters rest results
  end.

Definition search (filters : list SearchFilter) : M (list (string * string)) :=
  w <- gets wreq ;;
  match w with
  | None => throw (TypeError "Cannot read properties of undefined")
  | Some r => ret (search_loop filters (wreq_m r) [])
  end.

(** ** filters.byCode and filters.componentByCode

    The bodies of the two closures.  [toString] is
    [Function.prototype.toString.call]: the source text of a function. *)

Definition byCode_test (toString : value -> string) (code : list string)
    (m : value) : bool :=
  if negb (typeof m =? "function") then false
  else forallb (includes (toString m)) code.

Definition componentByCode_test (toString : value -> string) (h : Heap)
    (code : list string) (m : value) : bool :=
  let filter := byCode_test toString code in
  if filter m then true
  else if negb (truthy (get_opt h m "$$typeof")) then false
  else
    let type := get_opt h m "type" in
    if truthy type && truthy (get_own h type "render")
    then filter (get_own h type "render")
    else if truthy type then filter type
    else if truthy (get_opt h m "render") then filter (get_opt h m "render")
    else false.

(** ** More of what the properties are stated with *)

(** [c] occurs in [s]. *)
Definition occurs_in (c s : string) : Prop :=
  exists before after, s = (before ++ c ++ after)%string.



(** What holds of the variables of [findBulk]'s scan all along, for the
    filters [filters] over the candidates [cands] of the store [h]: the
    results array has its length, the filters left are among those passed,
    and a slot that is filled holds a candidate that one of the filters
    accepts. *)
Definition bulk_invariant (W : World) (filters : list value) (h : Heap)
    (cands : list value) (b : Bulk) : Prop :=
  List.length (results b) = List.length filters
  /\ (forall f, In f (filterFns b) -> In f filters)
  /\ (forall v, In (Some v) (results b) ->
        In v cands /\ exists f, In f filters /\ satisfies W h f v = true).

(** A run of a part of the scan that leaves the store as it is and the
    invariant in place when it returns. *)
Definition bulk_run_ok (W : World) (filters : list value) (h : Heap)
    (cands : list value) {A : Type} (bulk : A -> Bulk)
    (r : Outcome A * State) : Prop :=
  heap (snd r) = h
  /\ forall a, fst r = Return a -> bulk_invariant W filters h cands (bulk a).

(** ** A concrete world for examples *)

Definition zero : number := Decimal false 0 0.

(** The functions the examples pass in:
    0 is [m => m === "A"], 1 is [m => m === "B"], 2 is [m => m === 0],
    3 is a callback returning undefined, which also stands for the body of
    a component, 4 is [m => typeof m === "function"]. *)
Definition example_extern (id : nat) (_ : Heap) (args : list value) : value :=
  match id, args with
  | 0, [VString s] => VBool (s =? "A")%string
  | 1, [VString s] => VBool (s =? "B")%string
  | 2, [VNumber (Decimal _ 0 _)] => VBool true
  | 3, _ => VUndefined
  | 4, [VFunction _ _] => VBool true
  | _, _ => VBool false
  end.

(** A matcher that always captures [id]; one that never matches. *)
Definition capturing (id : string) : RegExp :=
  mkRegExp (fun _ => Some [Some "whole match"; Some id]).

Definition not_matching : RegExp := mkRegExp (fun _ => None).

Definition example_world (is_dev : bool) : World :=
  mkWorld is_dev example_extern 0 (fun re => re) (capturing "42").

Definition isA : value := VFunction 1 (CExtern 0).
Definition isB : value := VFunction 2 (CExtern 1).
Definition isZero : value := VFunction 3 (CExtern 2).
Definition example_callback : value := VFunction 4 (CExtern 3).
Definition RealComponent : value := VFunction 8 (CExtern 3).
Definition isComponent : value := VFunction 10 (CExtern 4).

(** Location 0 is NoopComponent; 1 to 4 are the functions above; 5 to 7 are
    module records exporting ["A"], ["B"] and [0]; 8 is a component with a
    displayName and 9 the record of the module exporting it; 10 is the
    function [isComponent]; 11 is an exports object [{ FriendRow: ... }]
    holding the component. *)
Definition example_heap : Heap :=
  [ []; []; []; []; [];
    [("exports", VString "A")];
    [("exports", VString "B")];
    [("exports", VNumber zero)];
    [("displayName", VString "Real")];
    [("exports", RealComponent)];
    [];
    [("FriendRow", RealComponent)] ].

Definition example_instance : WebpackInstance :=
  mkWebpackInstance
    [("1", VObject 5); ("2", VObject 6)]
    [("7", "function(e,t,n){n.el(42).then(n.bind(n,42))}")]
    (fun _ => None)
    (fun _ => Return (VString "chunk")).

Definition example_state (c : option Cache) : State :=
  mkState example_heap [] (Some example_instance) c false [] [] [].

Definition cache_AB : Cache := [("1", VObject 5); ("2", VObject 6)].
Definition cache_zero : Cache := [("3", VObject 7)].

(** * Properties *)

(** ** Running computations *)

Lemma log_nil (s : State) : log [] s = s.
Proof. destruct s; unfold log, with_events; simpl. now rewrite app_nil_r. Qed.

Lemma log_log (a b : list Event) (s : State) : log b (log a s) = log (a ++ b) s.
Proof. unfold log, with_events; simpl. now rewrite app_assoc. Qed.

Lemma truthy_not_nullish (v : value) : truthy v = true -> nullish v = false.
Proof. now destruct v. Qed.

Lemma get_run (v : value) (k : string) (s : State) :
  nullish v = false -> get v k s = (Return (get_own (heap s) v k), s).
Proof. intros H. unfold get. now rewrite H. Qed.

Lemma get_opt_truthy (h : Heap) (v : value) (k : string) :
  truthy (get_opt h v k) = true ->
  nullish v = false /\ get_opt h v k = get_own h v k.
Proof.
  unfold get_opt. destruct (nullish v); [discriminate | auto].
Qed.

Lemma typeof_function (v : value) :
  (typeof v =? "function")%string = is_function v.
Proof. now destruct v. Qed.

Lemma is_predicate_function (P : value) :
  is_predicate P = true -> is_function P = true.
Proof. now destruct P. Qed.

(** A call of a predicate returns what its body computes and leaves one
    event behind. *)
Lemma call_pure (W : World) (P : value) (args : list value) (s : State) :
  is_predicate P = true ->
  exists r, call W P args s = (Return r, log [Called P args] s)
            /\ (forall v, args = [v] -> truthy r = satisfies W (heap s) P v).
Proof.
  destruct P as [| | | | | | | |l c]; try discriminate.
  simpl. intros Hc.
  exists (apply_pure W (heap s) c args). split.
  - destruct c; try discriminate; reflexivity.
  - intros v ->. reflexivity.
Qed.

Lemma find_app {A : Type} (p : A -> bool) (l1 l2 : list A) :
  List.find p (l1 ++ l2) =
  match List.find p l1 with Some a => Some a | None => List.find p l2 end.
Proof.
  induction l1 as [|a l1 IH]; simpl; [reflexivity|].
  destruct (p a); [reflexivity | exact IH].
Qed.

Lemma tested_app (p : value -> bool) (l1 l2 : list value) :
  tested p (l1 ++ l2) =
  match List.find p l1 with
  | Some _ => tested p l1
  | None => l1 ++ tested p l2
  end.
Proof.
  induction l1 as [|a l1 IH]; simpl; [reflexivity|].
  destruct (p a); [reflexivity|].
  rewrite IH. destruct (List.find p l1); reflexivity.
Qed.

Lemma tested_none (p : value -> bool) (l : list value) :
  List.find p l = None -> tested p l = l.
Proof.
  induction l as [|a l IH]; simpl; [reflexivity|].
  destruct (p a); [discriminate|]. intros H. now rewrite IH.
Qed.

Lemma test_events_app (P : value) (l1 l2 : list value) :
  test_events P (l1 ++ l2) = test_events P l1 ++ test_events P l2.
Proof. apply map_app. Qed.

(** ** The scan of [find] *)

Section Scan.

Variable W : World.
Variable P : value.
Hypothesis HP : is_predicate P = true.

(** [find]'s loop returns the first candidate that satisfies the predicate,
    having called the predicate on the candidates up to that one and on
    nothing else. *)
Lemma find_loop_run (entries : Cache) (s : State) :
  find_loop W P entries s =
  (Return (List.find (satisfies W (heap s) P) (candidates (heap s) entries)),
   log (test_events P (tested (satisfies W (heap s) P)
                              (candidates (heap s) entries))) s).
Proof.
  revert s.
  induction entries as [|[key m] rest IH]; intros s.
  - simpl. now rewrite log_nil.
  - cbn [find_loop candidates flat_map snd].
    fold (candidates (heap s) rest).
    rewrite find_app, tested_app.
    unfold bind at 1. cbn [gets].
    unfold candidates_of.
    destruct (truthy (get_opt (heap s) m "exports")) eqn:He; cbn [negb].
    + destruct (get_opt_truthy _ _ _ He) as [Hm Hg].
      rewrite Hg in *.
      set (e := get_own (heap s) m "exports") in *.
      unfold bind at 1. rewrite (get_run m "exports" s Hm). fold e.
      unfold bind at 1.
      destruct (call_pure W P [e] s HP) as [r [Hr Hsat]].
      rewrite Hr. rewrite (Hsat e eq_refl).
      cbn [List.find tested].
      destruct (satisfies W (heap s) P e) eqn:Hse.
      * unfold bind at 1. rewrite get_run by exact Hm.
        cbn [heap log with_events]. fold e. reflexivity.
      * unfold bind at 1. rewrite get_run by exact Hm.
        cbn [heap log with_events]. fold e.
        unfold bind at 1. rewrite get_run by (apply truthy_not_nullish; exact He).
        cbn [heap log with_events].
        set (d := get_own (heap s) e "default").
        destruct (truthy d) eqn:Hd.
        -- unfold bind at 1.
           destruct (call_pure W P [d] (log [Called P [e]] s) HP) as [r' [Hr' Hsat']].
           rewrite Hr'. rewrite (Hsat' d eq_refl).
           cbn [heap log with_events List.find tested].
           destruct (satisfies W (heap s) P d) eqn:Hsd.
           ++ unfold bind at 1. rewrite get_run by exact Hm.
              cbn [heap log with_events]. fold e.
              unfold bind at 1.
              rewrite get_run by (apply truthy_not_nullish; exact He).
              cbn [heap log with_events]. fold d.
              rewrite log_log. reflexivity.
           ++ rewrite IH. cbn [heap log with_events].
              rewrite !log_log.
              destruct (List.find (satisfies W (heap s) P) (candidates (heap s) rest));
                cbn [test_events map app]; reflexivity.
        -- rewrite IH. cbn [heap log with_events].
           rewrite !log_log. cbn [List.find].
           destruct (List.find (satisfies W (heap s) P) (candidates (heap s) rest));
             cbn [test_events map app]; reflexivity.
    + rewrite IH. reflexivity.
Qed.

Lemma candidates_exported (h : Heap) (entries : Cache) (v : value) :
  In v (candidates h entries) ->
  In v (exported_values h entries) /\ truthy v = true.
Proof.
  induction entries as [|[key m] rest IH]; [simpl; tauto|].
  cbn [candidates exported_values flat_map snd].
  fold (candidates h rest). fold (exported_values h rest).
  rewrite !in_app_iff. unfold candidates_of.
  destruct (truthy (get_opt h m "exports")) eqn:He.
  - assert (Hd : get_opt h (get_opt h m "exports") "default"
                 = get_own h (get_opt h m "exports") "default").
    { unfold get_opt at 1. now rewrite (truthy_not_nullish _ He). }
    rewrite Hd.
    destruct (truthy (get_own h (get_opt h m "exports") "default")) eqn:Ht;
      simpl; intros [H | H].
    + destruct H as [<- | [<- | []]]; auto.
    + destruct (IH H); auto.
    + destruct H as [<- | []]; auto.
    + destruct (IH H); auto.
  - intros [[] | H]. destruct (IH H); auto.
Qed.

Lemma find_run (isIndirect : bool) (s : State) :
  find W P isIndirect s =
  let sat := satisfies W (heap s) P in
  let cands := candidates (heap s) (entries_of (cache s)) in
  match List.find sat cands with
  | Some v => (Return v, log (test_events P (tested sat cands)) s)
  | None =>
      if isIndirect then (Return VNull, log (test_events P cands) s)
      else (if strict W s then Throw (Error not_found_message) else Return VNull,
            log (test_events P cands
                 ++ [Logged LevelError not_found_message (FilterContext [P])]) s)
  end.
Proof.
  unfold find.
  rewrite typeof_function, (is_predicate_function P HP). cbn [negb].
  unfold bind at 1. cbn [gets].
  unfold bind at 1. rewrite (find_loop_run _ s).
  cbv zeta.
  destruct (List.find (satisfies W (heap s) P)
                      (candidates (heap s) (entries_of (cache s)))) eqn:Hf.
  - reflexivity.
  - rewrite (tested_none _ _ Hf).
    destruct isIndirect; cbn [negb].
    + reflexivity.
    + unfold bind at 1. unfold handleModuleNotFound.
      unfold bind at 1. unfold emit, modify at 1.
      unfold bind at 1. cbn [gets].
      rewrite log_log.
      replace (strict W (log _ s)) with (strict W s) by reflexivity.
      destruct (strict W s); reflexivity.
Qed.

Lemma findAll_loop_run (entries : Cache) (acc : list value) (s : State) :
  findAll_loop W P entries acc s =
  (Return (acc ++ filter (satisfies W (heap s) P) (candidates (heap s) entries)),
   log (test_events P (candidates (heap s) entries)) s).
Proof.
  revert acc s.
  induction entries as [|[key m] rest IH]; intros acc s.
  - simpl. now rewrite log_nil, app_nil_r.
  - cbn [findAll_loop candidates flat_map snd].
    fold (candidates (heap s) rest).
    rewrite filter_app, test_events_app.
    unfold bind at 1. cbn [gets].
    unfold candidates_of.
    destruct (truthy (get_opt (heap s) m "exports")) eqn:He; cbn [negb].
    + destruct (get_opt_truthy _ _ _ He) as [Hm Hg].
      rewrite Hg in *.
      set (e := get_own (heap s) m "exports") in *.
      unfold bind at 1. rewrite (get_run m "exports" s Hm). fold e.
      unfold bind at 1.
      destruct (call_pure W P [e] s HP) as [r [Hr Hsat]].
      rewrite Hr. rewrite (Hsat e eq_refl).
      unfold bind at 1.
      set (s1 := log [Called P [e]] s).
      assert (Hacc : (if satisfies W (heap s) P e
                      then bind (get m "exports") (fun exports => ret (acc ++ [exports]))
                      else ret acc) s1
                     = (Return (acc ++ filter (satisfies W (heap s) P) [e]), s1)).
      { cbn [filter]. destruct (satisfies W (heap s) P e).
        - unfold bind. rewrite get_run by exact Hm. reflexivity.
        - now rewrite app_nil_r. }
      rewrite Hacc. clear Hacc.
      unfold bind at 1. rewrite get_run by exact Hm.
      change (heap s1) with (heap s). fold e.
      unfold bind at 1. rewrite get_run by (apply truthy_not_nullish; exact He).
      change (heap s1) with (heap s).
      set (d := get_own (heap s) e "default").
      destruct (truthy d) eqn:Hd.
      * unfold bind at 1.
        destruct (call_pure W P [d] s1 HP) as [r' [Hr' Hsat']].
        rewrite Hr'. rewrite (Hsat' d eq_refl).
        change (heap s1) with (heap s).
        set (s2 := log [Called P [d]] s1).
        destruct (satisfies W (heap s) P d) eqn:Hsd.
        -- unfold bind at 1. rewrite get_run by exact Hm.
           change (heap s2) with (heap s). fold e.
           unfold bind at 1.
           rewrite get_run by (apply truthy_not_nullish; exact He).
           change (heap s2) with (heap s). fold d.
           rewrite IH. change (heap s2) with (heap s).
           unfold s2, s1. rewrite !log_log.
           cbn [filter]. rewrite Hsd.
           destruct (satisfies W (heap s) P e);
             cbn [app test_events map]; rewrite <- ?app_assoc; reflexivity.
        -- rewrite IH. change (heap s2) with (heap s).
           unfold s2, s1. rewrite !log_log.
           cbn [filter]. rewrite Hsd.
           destruct (satisfies W (heap s) P e);
             cbn [app test_events map]; rewrite <- ?app_assoc; reflexivity.
      * rewrite IH. change (heap s1) with (heap s).
        unfold s1. rewrite !log_log.
        destruct (satisfies W (heap s) P e);
          cbn [filter app test_events map]; rewrite <- ?app_assoc;
          try rewrite Hacc; reflexivity.
    + rewrite IH. reflexivity.
Qed.

Lemma findAll_run (s : State) :
  findAll W P s =
  (Return (filter (satisfies W (heap s) P)
                  (candidates (heap s) (entries_of (cache s)))),
   log (test_events P (candidates (heap s) (entries_of (cache s)))) s).
Proof.
  unfold findAll.
  rewrite typeof_function, (is_predicate_function P HP). cbn [negb].
  unfold bind at 1. cbn [gets].
  now rewrite findAll_loop_run.
Qed.

Lemma find_none_iff {A : Type} (p : A -> bool) (l : list A) :
  List.find p l = None <-> forall a, In a l -> p a = false.
Proof.
  split.
  - apply find_none.
  - induction l as [|a l IH]; simpl; [reflexivity|]. intros H.
    rewrite (H a (or_introl eq_refl)). apply IH. intros b Hb. apply H. now right.
Qed.

(** The outcome of [find], by what the scan comes across. *)
Lemma find_outcome_some (isIndirect : bool) (s : State) (v : value) :
  List.find (satisfies W (heap s) P)
            (candidates (heap s) (entries_of (cache s))) = Some v ->
  fst (find W P isIndirect s) = Return v.
Proof.
  intros Hf. rewrite (find_run isIndirect s). cbv zeta.
  now rewrite Hf.
Qed.

Lemma find_outcome_none (isIndirect : bool) (s : State) :
  List.find (satisfies W (heap s) P)
            (candidates (heap s) (entries_of (cache s))) = None ->
  fst (find W P isIndirect s) =
  if strict W s && negb isIndirect
  then Throw (Error not_found_message)
  else Return VNull.
Proof.
  intros Hf. rewrite (find_run isIndirect s). cbv zeta.
  rewrite Hf. destruct isIndirect; [now rewrite andb_false_r|].
  rewrite andb_true_r. now destruct (strict W s).
Qed.

(** A value [find] returns, the sentinel apart, is the first candidate that
    satisfies the predicate. *)
Lemma find_returns_first (isIndirect : bool) (s : State) (v : value) :
  fst (find W P isIndirect s) = Return v ->
  v <> VNull ->
  List.find (satisfies W (heap s) P)
            (candidates (heap s) (entries_of (cache s))) = Some v.
Proof.
  intros Hv Hnull.
  destruct (List.find (satisfies W (heap s) P)
                      (candidates (heap s) (entries_of (cache s))))
    as [w|] eqn:Hf.
  - rewrite (find_outcome_some isIndirect s w Hf) in Hv. congruence.
  - rewrite (find_outcome_none isIndirect s Hf) in Hv.
    destruct (strict W s && negb isIndirect); congruence.
Qed.

End Scan.

(** C2, as the specification states it, fails on the code: a registry whose
    only entry exports [0] and the predicate [m => m === 0].  The entry
    satisfies the predicate, and [find] returns the not-found sentinel. *)
Lemma find_misses_module_with_falsy_exports :
  let W := example_world false in
  let s := example_state (Some cache_zero) in
  In (VNumber zero) (exported_values (heap s) (entries_of (cache s)))
  /\ satisfies W (heap s) isZero (VNumber zero) = true
  /\ fst (find W isZero false s) = Return VNull.
Proof. cbv zeta. repeat split. simpl. auto. Qed.

(** C2, amended: for every predicate P and registry, [find(P)] returns the
    first value, in registry order over each entry's truthy exports followed
    by its truthy exports.default, that satisfies P; it reports not-found,
    by the null sentinel or, in strict mode for a call that is not indirect,
    by throwing, iff no truthy exports and no truthy exports.default of the
    registry satisfies P. *)
Theorem find_first_truthy_match (W : World) (P : value) (isIndirect : bool)
    (s : State) :
  is_predicate P = true ->
  let sat := satisfies W (heap s) P in
  let cands := candidates (heap s) (entries_of (cache s)) in
  let outcome := fst (find W P isIndirect s) in
  (forall v, List.find sat cands = Some v -> outcome = Return v)
  /\ (forall v, outcome = Return v -> v <> VNull ->
        sat v = true /\ truthy v = true /\ List.find sat cands = Some v)
  /\ ((outcome = Return VNull \/ outcome = Throw (Error not_found_message))
      <-> forall v, In v cands -> sat v = false)
  /\ (List.find sat cands = None ->
        outcome = if strict W s && negb isIndirect
                  then Throw (Error not_found_message)
                  else Return VNull).
Proof.
  intros HP sat cands outcome.
  assert (Htruthy : forall v, In v cands -> truthy v = true).
  { intros v Hv. now destruct (candidates_exported _ _ _ Hv). }
  split; [|split; [|split]].
  - intros v. apply find_outcome_some. exact HP.
  - intros v Hv Hnull.
    pose proof (find_returns_first W P HP isIndirect s v Hv Hnull) as Hf.
    destruct (find_some _ _ Hf) as [Hin Hsat].
    split; [exact Hsat|]. split; [now apply Htruthy | exact Hf].
  - rewrite <- find_none_iff. split.
    + intros Hnf.
      destruct (List.find sat cands) as [w|] eqn:Hf; [|reflexivity].
      pose proof (find_outcome_some W P HP isIndirect s w Hf) as Hw.
      fold outcome in Hw. destruct (find_some _ _ Hf) as [Hin _].
      apply Htruthy in Hin.
      destruct Hnf as [Hnf | Hnf]; rewrite Hnf in Hw; [|discriminate].
      injection Hw as <-. discriminate.
    + intros Hf. unfold outcome.
      rewrite (find_outcome_none W P HP isIndirect s Hf).
      destruct (strict W s && negb isIndirect); auto.
  - apply find_outcome_none. exact HP.
Qed.

Lemma find_first_truthy_match_witness :
  is_predicate isB = true
  /\ fst (find (example_world false) isB false (example_state (Some cache_AB)))
     = Return (VString "B").
Proof.
  split; [reflexivity|].
  destruct (find_first_truthy_match (example_world false) isB false
              (example_state (Some cache_AB)) eq_refl) as [Hfirst _].
  apply (Hfirst (VString "B")). reflexivity.
Defined.

Lemma In_test_events (P : value) (vs : list value) (f : value)
    (args : list value) :
  In (Called f args) (test_events P vs) ->
  exists v, f = P /\ args = [v] /\ In v vs.
Proof.
  unfold test_events. rewrite in_map_iff. intros [v [E Hv]].
  injection E as <- <-. eauto.
Qed.

Lemma In_tested (p : value -> bool) (l : list value) (v : value) :
  In v (tested p l) -> In v l.
Proof.
  induction l as [|a l IH]; simpl; [tauto|].
  destruct (p a); simpl; intros [H | H]; auto. destruct H.
Qed.

(** C10: [find] and [findAll] call the predicate on truthy exports and truthy
    exports.default only; so what [find] returns is a truthy module value or
    the null sentinel, and a module that satisfies the predicate only through
    a falsy export is never matched. *)
Theorem find_and_findAll_skip_falsy (W : World) (P : value) (isIndirect : bool)
    (s : State) :
  is_predicate P = true ->
  let values := exported_values (heap s) (entries_of (cache s)) in
  (exists evs, events (snd (find W P isIndirect s)) = events s ++ evs
     /\ forall f args, In (Called f args) evs ->
          exists v, f = P /\ args = [v] /\ In v values /\ truthy v = true)
  /\ (exists evs, events (snd (findAll W P s)) = events s ++ evs
     /\ forall f args, In (Called f args) evs ->
          exists v, f = P /\ args = [v] /\ In v values /\ truthy v = true)
  /\ (forall v, fst (find W P isIndirect s) = Return v ->
        truthy v = true \/ v = VNull)
  /\ (exists vs, fst (findAll W P s) = Return vs
                 /\ forall v, In v vs -> truthy v = true)
  /\ ((forall v, In v values -> satisfies W (heap s) P v = true ->
                 truthy v = false) ->
      (forall v, fst (find W P isIndirect s) = Return v -> v = VNull)
      /\ fst (findAll W P s) = Return []).
Proof.
  intros HP values.
  set (sat := satisfies W (heap s) P).
  set (cands := candidates (heap s) (entries_of (cache s))).
  assert (Hc : forall v, In v cands -> In v values /\ truthy v = true).
  { intros v. apply candidates_exported. }
  assert (Hev : forall vs f args,
             (forall v, In v vs -> In v cands) ->
             In (Called f args)
                (test_events P vs) ->
             exists v, f = P /\ args = [v] /\ In v values /\ truthy v = true).
  { intros vs f args Hsub Hin.
    destruct (In_test_events _ _ _ _ Hin) as [v [-> [-> Hv]]].
    exists v. destruct (Hc v (Hsub v Hv)). auto. }
  assert (Hret : forall v, fst (find W P isIndirect s) = Return v ->
                           v <> VNull -> In v cands /\ sat v = true).
  { intros v Hv Hnull.
    apply (find_some sat cands).
    exact (find_returns_first W P HP isIndirect s v Hv Hnull). }
  split; [|split; [|split; [|split]]].
  - rewrite (find_run W P HP isIndirect s). cbv zeta. fold sat cands.
    destruct (List.find sat cands) as [w|].
    + eexists. split; [reflexivity|].
      intros f args. apply Hev. intros x. apply In_tested.
    + destruct isIndirect.
      * eexists. split; [reflexivity|]. intros f args. apply Hev. auto.
      * eexists. split; [reflexivity|]. intros f args Hin.
        apply in_app_iff in Hin. destruct Hin as [Hin | [Hin | []]].
        -- revert Hin. apply Hev. auto.
        -- discriminate.
  - rewrite (findAll_run W P HP s). fold sat cands.
    eexists. split; [reflexivity|]. intros f args. apply Hev. auto.
  - intros v Hv.
    destruct v; try (left; apply Hc, (Hret _ Hv); discriminate).
    now right.
  - rewrite (findAll_run W P HP s). fold sat cands.
    eexists. split; [reflexivity|].
    intros v Hv. apply filter_In in Hv. now apply Hc.
  - intros Honly.
    assert (Hno : forall v, In v cands -> sat v = false).
    { intros v Hv. destruct (Hc v Hv) as [Hin Ht].
      destruct (sat v) eqn:Hs; [|reflexivity].
      rewrite (Honly v Hin Hs) in Ht. discriminate. }
    split.
    + intros v Hv.
      destruct v; try reflexivity;
        (destruct (Hret _ Hv) as [Hin Hs]; [discriminate|];
         rewrite (Hno _ Hin) in Hs; discriminate).
    + rewrite (findAll_run W P HP s). fold sat cands. cbn [fst]. f_equal.
      clear - Hno. induction cands as [|a l IH]; simpl; [reflexivity|].
      rewrite (Hno a (or_introl eq_refl)). apply IH.
      intros v Hv. apply Hno. now right.
Qed.

Lemma find_and_findAll_skip_falsy_witness :
  is_predicate isZero = true
  /\ fst (findAll (example_world true) isZero (example_state (Some cache_zero)))
     = Return [].
Proof.
  split; [reflexivity|].
  apply (find_and_findAll_skip_falsy (example_world true) isZero true
           (example_state (Some cache_zero)) eq_refl).
  intros v [<- | [<- | []]]; [reflexivity|discriminate].
Defined.

(** ** What a call leaves alone

    Calling a function value can allocate, write the variables closures
    captured and leave events; the module-level variables stay as they
    were. *)

Lemma frame_refl (s : State) : frame s s.
Proof. repeat split. Qed.

Lemma frame_trans (s1 s2 s3 : State) : frame s1 s2 -> frame s2 s3 -> frame s1 s3.
Proof.
  unfold frame. intros [A1 [A2 [A3 [A4 A5]]]] [B1 [B2 [B3 [B4 B5]]]].
  repeat split; congruence.
Qed.

Lemma preserves_ret {A : Type} (a : A) : preserves (ret a).
Proof. intros s. apply frame_refl. Qed.

Lemma preserves_throw {A : Type} (e : error) : preserves (@throw A e).
Proof. intros s. apply frame_refl. Qed.

Lemma preserves_gets {A : Type} (f : State -> A) : preserves (gets f).
Proof. intros s. apply frame_refl. Qed.

Lemma preserves_bind {A B : Type} (c : M A) (k : A -> M B) :
  preserves c -> (forall a, preserves (k a)) -> preserves (bind c k).
Proof.
  intros Hc Hk s. unfold bind. specialize (Hc s).
  destruct (c s) as [[a | e] s']; simpl in *.
  - eapply frame_trans; [exact Hc | apply Hk].
  - exact Hc.
Qed.

Lemma preserves_emit (e : Event) : preserves (emit e).
Proof. intros s. repeat split. Qed.

Lemma preserves_alloc (ps : props) : preserves (alloc ps).
Proof. intros s. repeat split. Qed.

Lemma preserves_new_binding (v : value) : preserves (new_binding v).
Proof. intros s. repeat split. Qed.

Lemma preserves_read_binding (i : nat) : preserves (read_binding i).
Proof. intros s. repeat split. Qed.

Lemma preserves_write_binding (i : nat) (v : value) :
  preserves (write_binding i v).
Proof. intros s. repeat split. Qed.

Lemma preserves_set_own (l : loc) (k : string) (v : value) :
  preserves (set_own l k v).
Proof. intros s. repeat split. Qed.

Lemma preserves_get (v : value) (k : string) : preserves (get v k).
Proof.
  unfold get. destruct (nullish v).
  - apply preserves_throw.
  - apply preserves_bind; [apply preserves_gets | intros; apply preserves_ret].
Qed.

Create HintDb preserves.

#[local] Hint Resolve preserves_ret preserves_throw preserves_gets
  preserves_emit preserves_alloc preserves_new_binding preserves_read_binding
  preserves_write_binding preserves_set_own preserves_get : preserves.

Ltac preserves_step :=
  repeat first
    [ solve [auto with preserves]
    | apply preserves_bind; [|intros ?] ].

Lemma preserves_set_all (l : loc) (ps : props) (c : M unit) :
  preserves c ->
  preserves (fold_left (fun acc kv => bind acc (fun _ => set_own l (fst kv) (snd kv)))
                       ps c).
Proof.
  revert c. induction ps as [|kv ps IH]; intros c Hc; simpl; [exact Hc|].
  apply IH. preserves_step.
Qed.

Lemma preserves_object_assign (target source : value) :
  preserves (object_assign target source).
Proof.
  unfold object_assign. apply preserves_bind; [auto with preserves|]. intros h.
  destruct target; auto with preserves.
  - match goal with |- context [existsb ?f ?l] => destruct (existsb f l) end;
      auto with preserves.
  - apply preserves_bind; [|auto with preserves].
    apply preserves_set_all. auto with preserves.
  - apply preserves_bind; [|auto with preserves].
    apply preserves_set_all. auto with preserves.
Qed.

#[local] Hint Resolve preserves_object_assign : preserves.

Lemma preserves_call (W : World) (f : value) :
  forall args, preserves (call W f args).
Proof.
  induction f using value_code_ind
    with (P0 := fun c => forall args, preserves (run W c args));
    intros args; cbn [call run]; unfold setInnerValue;
    solve [preserves_step].
Qed.

(** ** waitFor *)

Lemma map_get_set (k v : value) (m : list (value * value)) :
  is_function k = true -> map_get k (map_set k v m) = Some v.
Proof.
  intros Hk.
  assert (Hkk : same_function k k = true).
  { destruct k; try discriminate. simpl. apply Nat.eqb_refl. }
  induction m as [|[k' v'] m IH]; simpl.
  - now rewrite Hkk.
  - destruct (same_function k' k) eqn:E; simpl; rewrite E; [reflexivity | exact IH].
Qed.

(** The state after the entry of [waitFor]: the search is noted in
    development builds unless the call is indirect. *)
Lemma waitFor_run (W : World) (P cb : value) (isIndirect : bool) (s : State) :
  is_predicate P = true ->
  is_function cb = true ->
  let s1 := if IS_DEV W && negb isIndirect
            then with_history (webpackSearchHistory s ++ [("waitFor", [P])]) s
            else s in
  let sat := satisfies W (heap s) P in
  let cands := candidates (heap s) (entries_of (cache s)) in
  waitFor W P cb isIndirect s =
  match List.find sat cands with
  | Some v => call W cb [v] (log (test_events P (tested sat cands)) s1)
  | None =>
      (Return VUndefined,
       with_subscriptions (map_set P cb (waitForSubscriptions s))
                          (log (test_events P cands) s1))
  end.
Proof.
  intros HP Hcb s1 sat cands. unfold waitFor.
  rewrite !typeof_function, (is_predicate_function P HP), Hcb. cbn [negb].
  unfold bind at 1.
  assert (E1 : (if IS_DEV W && negb isIndirect
                then webpackSearchHistory_push "waitFor" [P]
                else ret tt) s = (Return tt, s1)).
  { unfold s1. destruct (IS_DEV W && negb isIndirect); reflexivity. }
  rewrite E1.
  assert (Hh : heap s1 = heap s).
  { unfold s1. destruct (IS_DEV W && negb isIndirect); reflexivity. }
  assert (Hc : cache s1 = cache s).
  { unfold s1. destruct (IS_DEV W && negb isIndirect); reflexivity. }
  assert (Hw : waitForSubscriptions s1 = waitForSubscriptions s).
  { unfold s1. destruct (IS_DEV W && negb isIndirect); reflexivity. }
  unfold bind at 1. cbn [gets]. rewrite Hc.
  destruct (cache s) as [entries|] eqn:Ecache.
  - unfold bind at 1. rewrite (find_run W P HP true s1). cbv zeta.
    rewrite Hh, Hc. cbn [entries_of] in *. fold sat cands.
    destruct (List.find sat cands) as [v|] eqn:Hf.
    + destruct (find_some _ _ Hf) as [Hin _].
      destruct (candidates_exported _ _ _ Hin) as [_ Ht].
      now rewrite Ht.
    + cbn [truthy]. unfold bind, waitForSubscriptions_set, modify, ret.
      change (waitForSubscriptions (log (test_events P cands) s1))
        with (waitForSubscriptions s1).
      now rewrite Hw.
  - subst cands. cbn [entries_of candidates flat_map List.find test_events map].
    rewrite log_nil.
    unfold bind, waitForSubscriptions_set, modify, ret. now rewrite Hw.
Qed.

(** C3, as the specification states it, fails on the code: the registry is
    populated and its module exports [0], which satisfies [m => m === 0];
    [waitFor] does not invoke the callback and stores a subscription. *)
Lemma waitFor_subscribes_although_module_satisfies :
  let W := example_world false in
  let s := example_state (Some cache_zero) in
  let s' := snd (waitFor W isZero example_callback false s) in
  cache s <> None
  /\ In (VNumber zero) (exported_values (heap s) (entries_of (cache s)))
  /\ satisfies W (heap s) isZero (VNumber zero) = true
  /\ events s' = []
  /\ waitForSubscriptions s' = [(isZero, example_callback)].
Proof. cbv zeta. repeat split; simpl; auto. discriminate. Qed.

(** C3, amended: for every predicate P and callback cb, if the registry is
    populated and a truthy exports or truthy exports.default of a loaded
    module satisfies P, [waitFor(P, cb)] calls cb once, at once, on the first
    such value and stores no subscription; otherwise it stores the pair
    (P, cb) as a pending subscription and does not call cb. *)
Theorem waitFor_eager_or_pending (W : World) (P cb : value)
    (isIndirect : bool) (s : State) :
  is_predicate P = true ->
  is_function cb = true ->
  let sat := satisfies W (heap s) P in
  let cands := candidates (heap s) (entries_of (cache s)) in
  let noted := if IS_DEV W && negb isIndirect
               then with_history (webpackSearchHistory s ++ [("waitFor", [P])]) s
               else s in
  let result := waitFor W P cb isIndirect s in
  (forall v, List.find sat cands = Some v ->
     cache s <> None
     /\ result = call W cb [v] (log (test_events P (tested sat cands)) noted)
     /\ waitForSubscriptions (snd result) = waitForSubscriptions s
     /\ (is_predicate cb = true ->
         events (snd result)
         = events s ++ test_events P (tested sat cands) ++ [Called cb [v]]))
  /\ (List.find sat cands = None ->
     fst result = Return VUndefined
     /\ waitForSubscriptions (snd result)
        = map_set P cb (waitForSubscriptions s)
     /\ map_get P (waitForSubscriptions (snd result)) = Some cb
     /\ events (snd result) = events s ++ test_events P cands).
Proof.
  intros HP Hcb sat cands noted result.
  assert (Hn : waitForSubscriptions noted = waitForSubscriptions s
               /\ events noted = events s).
  { unfold noted. destruct (IS_DEV W && negb isIndirect); split; reflexivity. }
  destruct Hn as [Hsub Hev].
  pose proof (waitFor_run W P cb isIndirect s HP Hcb) as Hrun.
  cbv zeta in Hrun. fold sat cands noted result in Hrun.
  split.
  - intros v Hf. rewrite Hf in Hrun.
    split; [|split; [|split]].
    + intros Hnone. unfold cands in Hf. rewrite Hnone in Hf. discriminate.
    + exact Hrun.
    + rewrite Hrun.
      pose proof (preserves_call W cb [v]
                    (log (test_events P (tested sat cands)) noted)) as Hp.
      destruct Hp as [_ [_ [_ [Hw _]]]]. rewrite Hw.
      exact Hsub.
    + intros Hpure. rewrite Hrun.
      destruct (call_pure W cb [v]
                  (log (test_events P (tested sat cands)) noted) Hpure)
        as [r [Hr _]].
      rewrite Hr. cbn [snd]. rewrite log_log.
      cbn [log with_events events]. now rewrite Hev.
  - intros Hf. rewrite Hf in Hrun. rewrite Hrun. cbn [fst snd].
    cbn [with_subscriptions waitForSubscriptions log with_events events].
    rewrite Hev. repeat split.
    apply map_get_set. now apply is_predicate_function.
Qed.

Lemma waitFor_eager_or_pending_witness :
  is_predicate isA = true
  /\ is_function example_callback = true
  /\ events (snd (waitFor (example_world true) isA example_callback false
                    (example_state (Some cache_AB))))
     = [Called isA [VString "A"]; Called example_callback [VString "A"]].
Proof.
  split; [reflexivity|]. split; [reflexivity|].
  destruct (waitFor_eager_or_pending (example_world true) isA example_callback
              false (example_state (Some cache_AB)) eq_refl eq_refl)
    as [Heager _].
  apply (Heager (VString "A") eq_refl). reflexivity.
Defined.

(** ** findBulk *)

(** C6, as the specification states it, fails on the code: outside
    development builds a single filter is not rejected, [findBulk] hands it
    to [find] and returns what [find] returns. *)
Lemma findBulk_single_filter_returns_in_production :
  IS_DEV (example_world false) = false
  /\ fst (findBulk (example_world false) [isA] (example_state (Some cache_AB)))
     = Return (BulkSingle (VString "A")).
Proof. split; reflexivity. Qed.

(** C6, amended: [findBulk] without a filter is rejected with an error in
    every build and whatever the developer tools' state; with one filter it
    is rejected with an error in development builds only, and in production
    builds it is [find] of that filter, result and effects. *)
Theorem findBulk_fewer_than_two (W : World) (s : State) :
  findBulk W [] s = (Throw (Error "Expected at least two filters."), s)
  /\ forall f,
       findBulk W [f] s =
       if IS_DEV W
       then (Throw (Error "bulk called with only one filter. Use find"), s)
       else match find W f false s with
            | (Return v, s') => (Return (BulkSingle v), s')
            | (Throw e, s') => (Throw e, s')
            end.
Proof.
  split; [reflexivity|].
  intros f. unfold findBulk. cbn [List.length nth].
  destruct (IS_DEV W); [reflexivity|].
  unfold bind. destruct (find W f false s) as [[v | e] s']; reflexivity.
Qed.

(** C1 does not hold of the code, which splices a matched filter out of
    [filterFns] and goes on indexing [results] by the position in the
    shortened array.  With the filters [m => m === "A"] and [m => m === "B"]
    and a registry exporting ["A"] then ["B"], each filter alone finds its
    module, and [findBulk], in either build, puts ["B"] in slot 0 and leaves
    slot 1 empty, with no error reported since two matches were counted. *)
Theorem findBulk_results_misaligned :
  forall is_dev : bool,
  let W := example_world is_dev in
  let s := example_state (Some cache_AB) in
  fst (find W isA false s) = Return (VString "A")
  /\ fst (find W isB false s) = Return (VString "B")
  /\ fst (findBulk W [isA; isB] s)
     = Return (BulkArray [Some (VString "B"); None]).
Proof. intros [|]; cbv zeta; repeat split. Qed.

(** The same splice makes the inner loop run past the end of the shortened
    array: once a filter has matched, a module that matches none of the
    filters left makes [findBulk] call undefined. *)
Lemma findBulk_calls_missing_filter :
  fst (findBulk (example_world false) [isA; isB]
         (example_state (Some [("1", VObject 5); ("3", VObject 9);
                               ("2", VObject 6)])))
  = Throw (TypeError "undefined is not a function").
Proof. reflexivity. Qed.

(** ** _initWebpack *)

Lemma _initWebpack_again (instance : ChunkArray) (s : State) :
  cache s <> None ->
  _initWebpack instance s = (Throw (ThrownValue (VString "no.")), s).
Proof.
  intros H. unfold _initWebpack, bind, gets.
  destruct (cache s); [reflexivity | contradiction].
Qed.

Lemma initialise_all_again (instances : list ChunkArray) (s : State) :
  cache s <> None -> initialise_all instances s = s.
Proof.
  intros H. induction instances as [|i rest IH]; simpl; [reflexivity|].
  now rewrite (_initWebpack_again i s H).
Qed.

(** C7: once the cache is set, a call of the initialisation routine throws
    and changes nothing.  An initialisation that succeeds finds the cache
    unset and sets it, so every later call throws and the cache is set
    once. *)
Theorem initWebpack_once (instance : ChunkArray) (s : State) :
  (cache s <> None ->
     _initWebpack instance s = (Throw (ThrownValue (VString "no.")), s))
  /\ (forall s',
        _initWebpack instance s = (Return true, s') ->
        cache s = None
        /\ (exists r, wreq s' = Some r /\ cache s' = Some (wreq_c r))
        /\ (forall again,
              _initWebpack again s' = (Throw (ThrownValue (VString "no.")), s'))
        /\ (forall instances, cache (initialise_all instances s') = cache s')).
Proof.
  split; [apply _initWebpack_again|].
  intros s' H.
  assert (Hs : cache s = None
               /\ exists r, wreq s' = Some r /\ cache s' = Some (wreq_c r)).
  { unfold _initWebpack, bind, gets, modify, ret in H.
    destruct (cache s); [discriminate|]. split; [reflexivity|].
    destruct (push_runtime instance) as [r|]; cbn in H.
    - injection H as <-. exists r. split; reflexivity.
    - destruct (wreq s) as [r|] eqn:Hw; [|discriminate].
      injection H as <-. exists r. split; [exact Hw | reflexivity]. }
  destruct Hs as [Hnone [r [Hw Hc]]].
  assert (Hset : cache s' <> None) by (rewrite Hc; discriminate).
  split; [exact Hnone|]. split; [now exists r|]. split.
  - intros again. now apply _initWebpack_again.
  - intros instances. now rewrite initialise_all_again.
Qed.

Lemma initWebpack_once_witness :
  _initWebpack (mkChunkArray (Some example_instance))
               (mkState example_heap [] None None false [] [] [])
  = (Return true, example_state (Some (wreq_c example_instance)))
  /\ cache (example_state (Some (wreq_c example_instance))) <> None
  /\ _initWebpack (mkChunkArray (Some example_instance))
                  (example_state (Some (wreq_c example_instance)))
     = (Throw (ThrownValue (VString "no.")),
        example_state (Some (wreq_c example_instance))).
Proof.
  assert (Hset : cache (example_state (Some (wreq_c example_instance))) <> None)
    by discriminate.
  split; [reflexivity|]. split; [exact Hset|].
  destruct (initWebpack_once (mkChunkArray (Some example_instance))
              (example_state (Some (wreq_c example_instance))))
    as [Hagain _].
  exact (Hagain Hset).
Defined.

(** ** Arguments that are not functions *)

Lemma typeof_not_function (v : value) :
  typeof v <> "function" -> (typeof v =? "function")%string = false.
Proof. intros H. now apply String.eqb_neq. Qed.

(** C8, as the specification states it, fails on the code: undefined is not
    a function, and passed as the callback of [proxyInnerWaitFor] or as the
    parse of [findComponent] it is replaced by the default [m => m]; the call
    does not throw and stores a subscription. *)
Lemma undefined_callback_is_defaulted :
  let W := example_world false in
  let s := example_state None in
  typeof VUndefined <> "function"
  /\ fst (proxyInnerWaitFor W isA VUndefined false s)
     = Return (VFunction 13 (CProxy 0))
  /\ waitForSubscriptions (snd (proxyInnerWaitFor W isA VUndefined false s))
     = [(isA, VFunction 14 (CProxyInnerCb 0 (VFunction 12 CIdentity)))]
  /\ fst (findComponent W isA VUndefined false s)
     = Return (VFunction 13 (CWrapperComponent 0))
  /\ waitForSubscriptions (snd (findComponent W isA VUndefined false s))
     = [(isA, VFunction 15 (CFindComponentCb 0 (VFunction 12 CIdentity)))].
Proof. cbv zeta. repeat split. discriminate. Qed.

(** C8, amended: in every mode, a value that is not a function passed as the
    filter of [find], [findAll], [waitFor], [findComponent] or
    [proxyInnerWaitFor], or as the callback of [waitFor], makes the call
    throw the invalid-argument error at once, before any scan, subscription
    or history entry; so does a value that is neither a function nor
    undefined passed as the parse of [findComponent] or the callback of
    [proxyInnerWaitFor] (undefined selects their default [m => m]).  The
    state is left as it was, but for the closure of a default [m => m] that
    [findComponent] and [proxyInnerWaitFor] have allocated by then. *)
Theorem search_entry_points_reject_non_functions (W : World) (v other : value)
    (isIndirect : bool) (s : State) :
  typeof v <> "function" ->
  let invalid what :=
    Error ("Invalid " ++ what ++ ". Expected a function got " ++ typeof v) in
  let entered := if is_undefined other then with_heap (heap s ++ [[]]) s else s in
  find W v isIndirect s = (Throw (invalid "filter"), s)
  /\ findAll W v s = (Throw (invalid "filter"), s)
  /\ waitFor W v other isIndirect s = (Throw (invalid "filter"), s)
  /\ findComponent W v other isIndirect s = (Throw (invalid "filter"), entered)
  /\ proxyInnerWaitFor W v other isIndirect s
     = (Throw (invalid "filter"), entered)
  /\ (typeof other = "function" ->
      waitFor W other v isIndirect s = (Throw (invalid "callback"), s)
      /\ (v <> VUndefined ->
          findComponent W other v isIndirect s
          = (Throw (invalid "component parse"), s)
          /\ proxyInnerWaitFor W other v isIndirect s
             = (Throw (invalid "callback"), s))).
Proof.
  intros Hv invalid entered.
  pose proof (typeof_not_function v Hv) as E.
  assert (Hdef : default_arg other (closure CIdentity) s
                 = (Return (if is_undefined other
                            then VFunction (length (heap s)) CIdentity
                            else other), entered)).
  { unfold default_arg, entered. destruct (is_undefined other); reflexivity. }
  split; [unfold find; now rewrite E|].
  split; [unfold findAll; now rewrite E|].
  split; [unfold waitFor; now rewrite E|].
  split; [unfold findComponent, bind; now rewrite Hdef, E|].
  split; [unfold proxyInnerWaitFor, bind; now rewrite Hdef, E|].
  intros Ho. apply String.eqb_eq in Ho.
  split; [unfold waitFor; now rewrite Ho, E|].
  intros Hu.
  assert (Hdef' : default_arg v (closure CIdentity) s = (Return v, s)).
  { unfold default_arg. destruct v; try reflexivity. contradiction. }
  split.
  - unfold findComponent, bind. now rewrite Hdef', Ho, E.
  - unfold proxyInnerWaitFor, bind. now rewrite Hdef', Ho, E.
Qed.

Lemma search_entry_points_reject_non_functions_witness :
  typeof (VString "FriendRow") <> "function"
  /\ find (example_world true) (VString "FriendRow") false (example_state None)
     = (Throw (Error "Invalid filter. Expected a function got string"),
        example_state None)
  /\ waitFor (example_world true) isA (VString "FriendRow") false
             (example_state None)
     = (Throw (Error "Invalid callback. Expected a function got string"),
        example_state None).
Proof.
  assert (H : typeof (VString "FriendRow") <> "function") by discriminate.
  split; [exact H|].
  split.
  - destruct (search_entry_points_reject_non_functions (example_world true)
                (VString "FriendRow") VUndefined false (example_state None) H)
      as [Hfind _].
    exact Hfind.
  - destruct (search_entry_points_reject_non_functions (example_world true)
                (VString "FriendRow") isA false (example_state None) H)
      as [_ [_ [_ [_ [_ Hcallback]]]]].
    destruct (Hcallback eq_refl) as [HwaitFor _].
    exact HwaitFor.
Defined.

(** ** extractAndLoadChunks *)

Lemma findModuleFactory_found (W : World) (code : list string) (s : State)
    (r : WebpackInstance) (id : string) :
  wreq s = Some r ->
  findModuleId_loop code (wreq_m r) = Some id ->
  id <> "" ->
  findModuleFactory W code s = (Return (assoc id (wreq_m r)), s).
Proof.
  intros Hw Hid Hne.
  unfold findModuleFactory, findModuleId, bind, gets, ret.
  rewrite Hw, Hid.
  apply String.eqb_neq in Hne. now rewrite Hne, Hw.
Qed.

Lemma findModuleFactory_missing (W : World) (code : list string) (s : State)
    (r : WebpackInstance) :
  wreq s = Some r ->
  findModuleId_loop code (wreq_m r) = None ->
  findModuleFactory W code s =
  if IS_DEV W then
    if devToolsOpen s then (Return None, s)
    else (Throw (Error (no_module_message code)), s)
  else (Return None, log [Logged LevelWarn (no_module_message code) NoContext] s).
Proof.
  intros Hw Hid.
  unfold findModuleFactory, findModuleId, bind, gets, ret.
  rewrite Hw, Hid.
  destruct (IS_DEV W); [destruct (devToolsOpen s)|]; reflexivity.
Qed.

(** Before the loader is there, [wreq] is undefined and reading [wreq.m]
    is a TypeError. *)
Lemma extractAndLoadChunks_without_loader (W : World) (code : list string)
    (matcher : option RegExp) (s : State) :
  wreq s = None ->
  extractAndLoadChunks W code matcher s
  = (Throw (TypeError "Cannot read properties of undefined"), s).
Proof.
  intros Hw.
  unfold extractAndLoadChunks, findModuleFactory, findModuleId, bind, gets.
  now rewrite Hw.
Qed.

(** What [extractAndLoadChunks] does with a capture it takes for invalid. *)
Lemma extractAndLoadChunks_invalid_capture (W : World) (code : list string)
    (matcher : option RegExp) (s : State) (r : WebpackInstance)
    (id source : string) (groups : list (option string)) :
  wreq s = Some r ->
  findModuleId_loop code (wreq_m r) = Some id ->
  id <> "" ->
  assoc id (wreq_m r) = Some source ->
  let re := match matcher with Some re => re | None => defaultMatcher W end in
  regexp_match (canonicalizeMatch W re) source = Some groups ->
  invalid_entry_point (nth 1 groups None) = true ->
  extractAndLoadChunks W code matcher s =
  (if strict W s then Throw (Error bad_capture_message) else Return VUndefined,
   log [Logged LevelWarn bad_capture_message (CodeMatcherContext code re)] s).
Proof.
  intros Hw Hid Hne Hsrc re Hm Hinv.
  unfold extractAndLoadChunks. fold re.
  unfold bind at 1.
  rewrite (findModuleFactory_found W code s r id Hw Hid Hne), Hsrc, Hm, Hinv.
  unfold bind, emit, modify, gets.
  change (strict W (log _ s)) with (strict W s).
  destruct (strict W s); reflexivity.
Qed.

Lemma not_a_numeric_id_invalid (id : option string) :
  not_a_numeric_id id = true -> invalid_entry_point id = true.
Proof.
  destruct id as [t|]; [|reflexivity]. simpl.
  destruct (String.eqb_spec t "") as [-> | _]; [reflexivity|]. simpl.
  destruct (Number t); try discriminate. reflexivity.
Qed.

(** C4, as the specification states it, fails on the code: in strict mode,
    when no factory contains the code, the error comes out of
    [findModuleId] and nothing is logged, neither the filters nor the
    matcher. *)
Lemma extractAndLoadChunks_strict_missing_factory_logs_nothing :
  let W := example_world true in
  let s := example_state None in
  strict W s = true
  /\ findModuleId_loop ["no such code"] (wreq_m example_instance) = None
  /\ extractAndLoadChunks W ["no such code"] None s
     = (Throw (Error (no_module_message ["no such code"])), s)
  /\ events (snd (extractAndLoadChunks W ["no such code"] None s)) = [].
Proof. cbv zeta. repeat split. Qed.

(** C4, amended: with the loader in place, when the pattern does not match
    the factory's source, or the captured group is missing, empty or not a
    number, [extractAndLoadChunks] logs a warning with the code and the
    matcher, loads nothing, and returns undefined, or throws in strict mode.
    When no factory contains the code it loads nothing either: outside
    development builds it logs (the lookup's warning, then its own with the
    code and the matcher) and returns undefined; in a development build
    with the developer tools open it logs its own warning and returns
    undefined; in strict mode the lookup throws before anything is
    logged. *)
Theorem extractAndLoadChunks_failures (W : World) (code : list string)
    (matcher : option RegExp) (s : State) (r : WebpackInstance) :
  wreq s = Some r ->
  let re := match matcher with Some re => re | None => defaultMatcher W end in
  let context := CodeMatcherContext code re in
  let result := extractAndLoadChunks W code matcher s in
  (findModuleId_loop code (wreq_m r) = None ->
     result =
     if IS_DEV W then
       if devToolsOpen s
       then (Return VUndefined, log [Logged LevelWarn no_factory_message context] s)
       else (Throw (Error (no_module_message code)), s)
     else (Return VUndefined,
           log [Logged LevelWarn (no_module_message code) NoContext;
                Logged LevelWarn no_factory_message context] s))
  /\ (forall id source,
        findModuleId_loop code (wreq_m r) = Some id ->
        id <> "" ->
        assoc id (wreq_m r) = Some source ->
        (regexp_match (canonicalizeMatch W re) source = None ->
           result =
           (if strict W s then Throw (Error no_match_message)
            else Return VUndefined,
            log [Logged LevelWarn no_match_message context] s))
        /\ (forall groups,
              regexp_match (canonicalizeMatch W re) source = Some groups ->
              not_a_numeric_id (nth 1 groups None) = true ->
              result =
              (if strict W s then Throw (Error bad_capture_message)
               else Return VUndefined,
               log [Logged LevelWarn bad_capture_message context] s))).
Proof.
  intros Hw re context result. split.
  - intros Hid. unfold result, extractAndLoadChunks. fold re.
    unfold bind at 1.
    rewrite (findModuleFactory_missing W code s r Hw Hid).
    destruct (IS_DEV W); [destruct (devToolsOpen s)|]; try reflexivity.
    unfold bind, emit, modify, ret. now rewrite log_log.
  - intros id source Hid Hne Hsrc. split.
    + intros Hm. unfold result, extractAndLoadChunks. fold re.
      unfold bind at 1.
      rewrite (findModuleFactory_found W code s r id Hw Hid Hne), Hsrc, Hm.
      unfold bind, emit, modify, gets.
      change (strict W (log _ s)) with (strict W s).
      destruct (strict W s); reflexivity.
    + intros groups Hm Hbad.
      apply (extractAndLoadChunks_invalid_capture W code matcher s r id source
               groups Hw Hid Hne Hsrc Hm).
      now apply not_a_numeric_id_invalid.
Qed.

Lemma extractAndLoadChunks_failures_witness :
  wreq (example_state None) = Some example_instance
  /\ extractAndLoadChunks (example_world false) ["no such code"] None
                          (example_state None)
     = (Return VUndefined,
        log [Logged LevelWarn (no_module_message ["no such code"]) NoContext;
             Logged LevelWarn no_factory_message
                    (CodeMatcherContext ["no such code"] (capturing "42"))]
            (example_state None))
  /\ extractAndLoadChunks (example_world true) ["n.el("] (Some not_matching)
                          (example_state None)
     = (Throw (Error no_match_message),
        log [Logged LevelWarn no_match_message
                    (CodeMatcherContext ["n.el("] not_matching)]
            (example_state None))
  /\ extractAndLoadChunks (example_world false) ["n.el("]
                          (Some (capturing "forty-two")) (example_state None)
     = (Return VUndefined,
        log [Logged LevelWarn bad_capture_message
                    (CodeMatcherContext ["n.el("] (capturing "forty-two"))]
            (example_state None)).
Proof.
  split; [reflexivity|]. split; [|split].
  - destruct (extractAndLoadChunks_failures (example_world false)
                ["no such code"] None (example_state None) example_instance
                eq_refl) as [Hmissing _].
    apply (Hmissing eq_refl).
  - destruct (extractAndLoadChunks_failures (example_world true)
                ["n.el("] (Some not_matching) (example_state None)
                example_instance eq_refl) as [_ Hfound].
    assert (Hne : "7" <> "") by discriminate.
    destruct (Hfound "7" _ eq_refl Hne eq_refl) as [Hnomatch _].
    apply (Hnomatch eq_refl).
  - destruct (extractAndLoadChunks_failures (example_world false)
                ["n.el("] (Some (capturing "forty-two")) (example_state None)
                example_instance eq_refl) as [_ Hfound].
    assert (Hne : "7" <> "") by discriminate.
    destruct (Hfound "7" _ eq_refl Hne eq_refl) as [_ Hcapture].
    apply (Hcapture _ eq_refl eq_refl).
Defined.

(** C9, as the specification states it, fails on the code: in strict mode
    the capture ["0"] is taken for invalid and nothing is loaded, but the
    call throws; it does not return undefined. *)
Lemma extractAndLoadChunks_zero_id_throws_in_strict_mode :
  let W := example_world true in
  let s := example_state None in
  let result := extractAndLoadChunks W ["n.el("] (Some (capturing "0")) s in
  Number "0" = Decimal false 0 0
  /\ strict W s = true
  /\ fst result = Throw (Error bad_capture_message)
  /\ events (snd result)
     = [Logged LevelWarn bad_capture_message
               (CodeMatcherContext ["n.el("] (capturing "0"))].
Proof. cbv zeta. repeat split. Qed.

(** C9, amended: for every captured chunk id whose conversion to a number
    is 0 or NaN, the string ["0"] among them, [extractAndLoadChunks] takes
    the capture for invalid: it logs the warning, does not call the loader's
    load-chunk primitive, and returns undefined, or throws in strict mode;
    validity is the truthiness of the converted number. *)
Theorem extractAndLoadChunks_rejects_falsy_number (W : World)
    (code : list string) (matcher : option RegExp) (s : State)
    (r : WebpackInstance) (id source capture : string)
    (groups : list (option string)) :
  wreq s = Some r ->
  findModuleId_loop code (wreq_m r) = Some id ->
  id <> "" ->
  assoc id (wreq_m r) = Some source ->
  let re := match matcher with Some re => re | None => defaultMatcher W end in
  regexp_match (canonicalizeMatch W re) source = Some groups ->
  nth 1 groups None = Some capture ->
  number_truthy (Number capture) = false ->
  let result := extractAndLoadChunks W code matcher s in
  fst result = (if strict W s then Throw (Error bad_capture_message)
                else Return VUndefined)
  /\ events (snd result)
     = events s ++ [Logged LevelWarn bad_capture_message
                           (CodeMatcherContext code re)]
  /\ (forall chunk, In (ChunkLoaded chunk) (events (snd result)) ->
                    In (ChunkLoaded chunk) (events s))
  /\ number_truthy (Number "0") = false.
Proof.
  intros Hw Hid Hne Hsrc re Hm Hcap Hfalsy result.
  assert (Hinv : invalid_entry_point (nth 1 groups None) = true).
  { rewrite Hcap. unfold invalid_entry_point. rewrite Hfalsy. apply orb_true_r. }
  pose proof (extractAndLoadChunks_invalid_capture W code matcher s r id source
                groups Hw Hid Hne Hsrc Hm Hinv) as Hrun.
  fold re result in Hrun. rewrite Hrun. cbn [fst snd log with_events events].
  repeat split.
  intros chunk Hin. apply in_app_iff in Hin.
  destruct Hin as [Hin | [Hin | []]]; [exact Hin | discriminate].
Qed.

Lemma extractAndLoadChunks_rejects_falsy_number_witness :
  wreq (example_state None) = Some example_instance
  /\ number_truthy (Number "0") = false
  /\ fst (extractAndLoadChunks (example_world false) ["n.el("]
            (Some (capturing "0")) (example_state None))
     = Return VUndefined.
Proof.
  split; [reflexivity|]. split; [reflexivity|].
  assert (Hne : "7" <> "") by discriminate.
  destruct (extractAndLoadChunks_rejects_falsy_number (example_world false)
              ["n.el("] (Some (capturing "0")) (example_state None)
              example_instance "7" _ "0" _
              eq_refl eq_refl Hne eq_refl eq_refl eq_refl eq_refl)
    as [Hreturn _].
  exact Hreturn.
Defined.

(** ** findComponent and findExportedComponent *)

(** Rendering the wrapper renders the component its inner variable holds at
    that time. *)
Lemma WrapperComponent_renders_inner (W : World) (l : loc) (inner : nat)
    (props : value) (s : State) :
  exists e s',
    call W (VFunction l (CWrapperComponent inner)) [props] s
    = (Return (VObject e), s')
    /\ get_own (heap s') (VObject e) "type" = nth inner (bindings s) VUndefined.
Proof.
  cbn [call run nth].
  unfold bind, emit, modify, read_binding, gets, alloc, ret.
  cbn [fst snd heap bindings log with_heap with_events].
  eexists. eexists. split; [reflexivity|].
  cbn [get_own heap with_heap].
  rewrite app_nth2; rewrite length_app; cbn [List.length]; [|lia].
  replace (List.length (heap s) + 1 - (List.length (heap s) + 1)) with 0 by lia.
  reflexivity.
Qed.

(** *** Which objects the resolution writes

    [keeps w c]: the computation [c] leaves the object at [w] as it is. *)

Lemma length_update_nth {A : Type} (n : nat) (a : A) (l : list A) :
  List.length (update_nth n a l) = List.length l.
Proof.
  revert n. induction l as [|x l IH]; intros [|n]; simpl; auto.
Qed.

Lemma nth_update_nth_other {A : Type} (n m : nat) (a d : A) (l : list A) :
  n <> m -> nth m (update_nth n a l) d = nth m l d.
Proof.
  revert n m. induction l as [|x l IH]; intros [|n] [|m] H; simpl; auto.
  contradiction.
Qed.

Lemma nth_update_nth_same {A : Type} (n : nat) (a d : A) (l : list A) :
  nth n (update_nth n a l) d = a \/ nth n (update_nth n a l) d = d.
Proof.
  revert n. induction l as [|x l IH]; intros [|n]; simpl; auto.
Qed.

Lemma keeps_ret {A : Type} (w : loc) (a : A) : keeps w (ret a).
Proof. intros s H. auto. Qed.

Lemma keeps_throw {A : Type} (w : loc) (e : error) : keeps w (@throw A e).
Proof. intros s H. auto. Qed.

Lemma keeps_gets {A : Type} (w : loc) (f : State -> A) : keeps w (gets f).
Proof. intros s H. auto. Qed.

Lemma keeps_bind {A B : Type} (w : loc) (c : M A) (k : A -> M B) :
  keeps w c -> (forall a, keeps w (k a)) -> keeps w (bind c k).
Proof.
  intros Hc Hk s Hs. unfold bind. specialize (Hc s Hs).
  destruct (c s) as [[a | e] s']; simpl in *; [|exact Hc].
  destruct Hc as [Hlen Hnth].
  destruct (Hk a s' Hlen) as [Hlen' Hnth'].
  split; [exact Hlen' | congruence].
Qed.

Lemma keeps_emit (w : loc) (e : Event) : keeps w (emit e).
Proof. intros s H. auto. Qed.

Lemma keeps_write_binding (w : loc) (i : nat) (v : value) :
  keeps w (write_binding i v).
Proof. intros s H. auto. Qed.

Lemma keeps_set_own (w l : loc) (k : string) (v : value) :
  l <> w -> keeps w (set_own l k v).
Proof.
  intros Hl s Hs. cbn [set_own modify snd heap with_heap].
  rewrite length_update_nth. split; [exact Hs|].
  now apply nth_update_nth_other.
Qed.

Lemma keeps_set_all (w l : loc) (ps : props) (c : M unit) :
  l <> w -> keeps w c ->
  keeps w (fold_left (fun acc kv => bind acc (fun _ => set_own l (fst kv) (snd kv)))
                     ps c).
Proof.
  intros Hl. revert c. induction ps as [|kv ps IH]; intros c Hc; simpl; [exact Hc|].
  apply IH. apply keeps_bind; [exact Hc|]. intros _. now apply keeps_set_own.
Qed.

(** [Object.assign] writes its target and no other object. *)
Lemma keeps_object_assign (w : loc) (target source : value) :
  loc_of target <> Some w -> keeps w (object_assign target source).
Proof.
  intros Ht. unfold object_assign.
  apply keeps_bind; [apply keeps_gets|]. intros h.
  destruct target; try apply keeps_ret; try apply keeps_throw.
  - match goal with |- context [existsb ?f ?l] => destruct (existsb f l) end;
      [apply keeps_throw | apply keeps_ret].
  - apply keeps_bind; [|intros _; apply keeps_ret].
    apply keeps_set_all; [|apply keeps_ret].
    intros ->. now apply Ht.
  - apply keeps_bind; [|intros _; apply keeps_ret].
    apply keeps_set_all; [|apply keeps_ret].
    intros ->. now apply Ht.
Qed.

(** The callback of [findComponent], with a parse that is a plain function:
    whatever the component, the only object it can write is the parsed
    component itself.  The wrapper handed out earlier is another object, so
    its properties stay what they were. *)
Lemma findComponent_callback_writes_component_only (W : World) (l lp : loc)
    (inner : nat) (c : code) (v : value) (s : State) (w : loc) :
  pure_code c = true ->
  w < List.length (heap s) ->
  loc_of (apply_pure W (heap s) c [v]) <> Some w ->
  let callback := VFunction l (CFindComponentCb inner (VFunction lp c)) in
  nth w (heap (snd (call W callback [v] s))) [] = nth w (heap s) [].
Proof.
  intros Hc Hw Hloc callback.
  assert (HP : is_predicate (VFunction lp c) = true) by exact Hc.
  unfold callback.
  change (call W (VFunction l (CFindComponentCb inner (VFunction lp c))) [v] s)
    with (bind (emit (Called (VFunction l (CFindComponentCb inner (VFunction lp c))) [v]))
               (fun _ =>
                bind (call W (VFunction lp c) [v]) (fun parsedComponent =>
                bind (write_binding inner parsedComponent) (fun _ =>
                bind (read_binding inner) (fun InnerComponent =>
                bind (object_assign InnerComponent parsedComponent) (fun _ =>
                ret VUndefined))))) s).
  unfold bind at 1. cbn [emit modify].
  set (s1 := log [Called (VFunction l (CFindComponentCb inner (VFunction lp c))) [v]] s).
  unfold bind at 1.
  destruct (call_pure W (VFunction lp c) [v] s1 HP) as [r [Hr _]].
  assert (Er : r = apply_pure W (heap s) c [v]).
  { assert (E : call W (VFunction lp c) [v] s1
                = (Return (apply_pure W (heap s1) c [v]),
                   log [Called (VFunction lp c) [v]] s1)).
    { destruct c; try discriminate; reflexivity. }
    rewrite E in Hr. now injection Hr as <-. }
  rewrite Hr. subst r.
  set (parsed := apply_pure W (heap s) c [v]) in *.
  set (s2 := log [Called (VFunction lp c) [v]] s1).
  assert (Hkeep : forall x, loc_of x <> Some w ->
            keeps w (bind (object_assign x parsed) (fun _ => ret VUndefined))).
  { intros x Hx. apply keeps_bind; [now apply keeps_object_assign|].
    intros _. apply keeps_ret. }
  unfold bind at 1. cbn [write_binding modify].
  unfold bind at 1. cbn [read_binding gets bindings with_bindings].
  (* the inner variable holds the parsed component now, or reads as
     undefined when [inner] is no variable at all *)
  set (ic := nth inner (update_nth inner parsed (bindings s2)) VUndefined).
  assert (Hic : loc_of ic <> Some w).
  { unfold ic.
    destruct (nth_update_nth_same inner parsed VUndefined (bindings s2))
      as [-> | ->]; [exact Hloc | discriminate]. }
  destruct (Hkeep ic Hic (with_bindings (update_nth inner parsed (bindings s2)) s2) Hw)
    as [_ Hnth].
  exact Hnth.
Qed.

(** C5 does not hold of the code.  [findComponent] returns its wrapper while
    the registry is not there yet; the subscription's callback is then run
    on a component with an own property [displayName].  The callback puts
    the component in the inner variable, so the wrapper renders it from then
    on, but [Object.assign(InnerComponent, parsedComponent)] copies the
    component's properties onto the component itself: the store is left as
    it was and the wrapper has no [displayName]. *)
Theorem component_resolution_copies_nothing_onto_wrapper :
  let W := example_world false in
  let s0 := example_state None in
  let WrapperComponent := VFunction 13 (CWrapperComponent 0) in
  let callback := VFunction 15 (CFindComponentCb 0 (VFunction 12 CIdentity)) in
  let s1 := snd (findComponent W isComponent VUndefined false s0) in
  let s2 := snd (call W callback [RealComponent] s1) in
  fst (findComponent W isComponent VUndefined false s0) = Return WrapperComponent
  /\ map_get isComponent (waitForSubscriptions s1) = Some callback
  /\ nth 0 (bindings s1) VUndefined = NoopComponent W
  /\ fst (call W callback [RealComponent] s1) = Return VUndefined
  /\ nth 0 (bindings s2) VUndefined = RealComponent
  /\ get_own (heap s2) RealComponent "displayName" = VString "Real"
  /\ get_own (heap s2) WrapperComponent "displayName" = VUndefined
  /\ heap s2 = heap s1.
Proof. cbv zeta. repeat split. Qed.

(** [findExportedComponent] has the same callback, on [exports.FriendRow]. *)
Lemma exported_component_resolution_copies_nothing_onto_wrapper :
  let W := example_world false in
  let s0 := example_state None in
  let WrapperComponent := VFunction 13 (CWrapperComponent 0) in
  let callback :=
    VFunction 17 (CFindExportedComponentCb 0 (VFunction 12 CIdentity)
                                           (Some "FriendRow")) in
  let s1 := snd (findExportedComponent W ["FriendRow"] None s0) in
  let s2 := snd (call W callback [VObject 11] s1) in
  fst (findExportedComponent W ["FriendRow"] None s0) = Return WrapperComponent
  /\ map_get (VFunction 16 (CByProps ["FriendRow"])) (waitForSubscriptions s1)
     = Some callback
  /\ fst (call W callback [VObject 11] s1) = Return VUndefined
  /\ nth 0 (bindings s2) VUndefined = RealComponent
  /\ get_own (heap s2) RealComponent "displayName" = VString "Real"
  /\ get_own (heap s2) WrapperComponent "displayName" = VUndefined
  /\ heap s2 = heap s1.
Proof. cbv zeta. repeat split. Qed.

(** * Further properties *)

(** ** The searches and the module-level state *)

Lemma preserves_if {A : Type} (b : bool) (c1 c2 : M A) :
  preserves c1 -> preserves c2 -> preserves (if b then c1 else c2).
Proof. now destruct b. Qed.

Lemma preserves_handleModuleNotFound (W : World) (method : string)
    (filter : list value) : preserves (handleModuleNotFound W method filter).
Proof.
  unfold handleModuleNotFound. preserves_step.
  apply preserves_if; auto with preserves.
Qed.

#[local] Hint Resolve preserves_call preserves_handleModuleNotFound : preserves.








(** ** find, twice and beside findAll *)

(** X2: a search does not disturb the next one: [find] run again, right
    after [find] with the same predicate and the same options, ends the same
    way, by the same value or the same error. *)
Theorem find_twice (W : World) (P : value) (isIndirect : bool) (s : State) :
  is_predicate P = true ->
  fst (find W P isIndirect (snd (find W P isIndirect s)))
  = fst (find W P isIndirect s).
Proof.
  intros HP.
  assert (Hh : heap (snd (find W P isIndirect s)) = heap s
               /\ cache (snd (find W P isIndirect s)) = cache s
               /\ strict W (snd (find W P isIndirect s)) = strict W s).
  { rewrite (find_run W P HP isIndirect s). cbv zeta.
    destruct (List.find _ _); [|destruct isIndirect]; repeat split. }
  destruct Hh as [Hh [Hc Hs]].
  remember (snd (find W P isIndirect s)) as s' eqn:E. clear E.
  rewrite (find_run W P HP isIndirect s'), (find_run W P HP isIndirect s).
  cbv zeta. rewrite Hh, Hc, Hs.
  destruct (List.find _ _); [|destruct isIndirect]; reflexivity.
Qed.

Lemma find_twice_witness :
  is_predicate isA = true
  /\ fst (find (example_world true) isA false
            (snd (find (example_world true) isA false
                    (example_state (Some cache_AB)))))
     = Return (VString "A").
Proof.
  split; [reflexivity|].
  rewrite (find_twice (example_world true) isA false
             (example_state (Some cache_AB)) eq_refl).
  reflexivity.
Defined.

Lemma find_filter_head {A : Type} (p : A -> bool) (l : list A) :
  List.find p l = hd_error (filter p l).
Proof.
  induction l as [|a l IH]; simpl; [reflexivity|].
  destruct (p a); [reflexivity | exact IH].
Qed.

(** X3: [findAll] returns, in registry order, every truthy exports and
    truthy exports.default that satisfies the predicate, and [find] goes
    with it: [find] returns the first element of that array, and reports
    not-found exactly when the array is empty. *)
Theorem find_is_head_of_findAll (W : World) (P : value) (isIndirect : bool)
    (s : State) :
  is_predicate P = true ->
  exists all,
    fst (findAll W P s) = Return all
    /\ (forall v, In v all <->
          In v (candidates (heap s) (entries_of (cache s)))
          /\ satisfies W (heap s) P v = true)
    /\ match all with
       | v :: _ => fst (find W P isIndirect s) = Return v
       | [] => fst (find W P isIndirect s)
               = if strict W s && negb isIndirect
                 then Throw (Error not_found_message)
                 else Return VNull
       end.
Proof.
  intros HP. rewrite (findAll_run W P HP s). eexists. split; [reflexivity|].
  split; [intros v; apply filter_In|].
  pose proof (find_filter_head (satisfies W (heap s) P)
                (candidates (heap s) (entries_of (cache s)))) as Hhd.
  destruct (filter (satisfies W (heap s) P)
                   (candidates (heap s) (entries_of (cache s)))) as [|v rest].
  - apply (find_outcome_none W P HP). exact Hhd.
  - apply (find_outcome_some W P HP). exact Hhd.
Qed.

Lemma find_is_head_of_findAll_witness :
  is_predicate isB = true
  /\ exists all,
       fst (findAll (example_world false) isB (example_state (Some cache_AB)))
       = Return all
       /\ all = [VString "B"].
Proof.
  split; [reflexivity|].
  destruct (find_is_head_of_findAll (example_world false) isB false
              (example_state (Some cache_AB)) eq_refl) as [all [Hall _]].
  exists all. split; [exact Hall|].
  cbn in Hall. now injection Hall as <-.
Defined.

(** ** findBulk *)

Lemma In_update_nth {A : Type} (j : nat) (a x : A) (l : list A) :
  In x (update_nth j a l) -> x = a \/ In x l.
Proof.
  revert j. induction l as [|y l IH]; intros [|j]; simpl; auto.
  - intros [H | H]; auto.
  - intros [H | H]; auto. destruct (IH j H); auto.
Qed.

Lemma In_remove_nth {A : Type} (j : nat) (x : A) (l : list A) :
  In x (remove_nth j l) -> In x l.
Proof.
  revert j. induction l as [|y l IH]; intros [|j]; simpl; auto.
  intros [H | H]; eauto.
Qed.

Lemma nth_In_or_default {A : Type} (j : nat) (l : list A) (d : A) :
  In (nth j l d) l \/ nth j l d = d.
Proof.
  destruct (Nat.lt_ge_cases j (List.length l)) as [H | H].
  - left. now apply nth_In.
  - right. now apply nth_overflow.
Qed.

Section Bulk.

Variable W : World.
Variable filters : list value.
Hypothesis Hfilters : forallb is_predicate filters = true.
Variable s0 : State.

Let h := heap s0.
Let cands := candidates h (entries_of (cache s0)).
Let invariant := bulk_invariant W filters h cands.
Let good_step := @bulk_run_ok W filters h cands (Bulk * bool) fst.
Let good_scan := @bulk_run_ok W filters h cands Bulk (fun b => b).

Lemma invariant_record_match (j : nat) (v : value) (b : Bulk) :
  invariant b ->
  In v cands ->
  In (nth j (filterFns b) VUndefined) (filterFns b) ->
  satisfies W h (nth j (filterFns b) VUndefined) v = true ->
  invariant (record_match j v b).
Proof.
  intros [Hlen [Hsub Hres]] Hv Hin Hsat. unfold record_match.
  split; [|split]; cbn [results filterFns found].
  - rewrite length_update_nth. exact Hlen.
  - intros f Hf. apply Hsub. eapply In_remove_nth. exact Hf.
  - intros x Hx. destruct (In_update_nth _ _ _ _ Hx) as [E | Hold].
    + injection E as ->. split; [exact Hv|]. eauto.
    + now apply Hres.
Qed.

Lemma findBulk_filters_invariant (n : nat) (m : value) (todo : nat) :
  truthy (get_opt h m "exports") = true ->
  (forall v, In v (candidates_of h m) -> In v cands) ->
  forall j b s,
    heap s = h ->
    invariant b ->
    good_step (findBulk_filters W n m todo j b s).
Proof.
  intros He Hc.
  destruct (get_opt_truthy _ _ _ He) as [Hm Hg].
  assert (Hexp : In (get_own h m "exports") cands).
  { apply Hc. unfold candidates_of. rewrite He, Hg. now left. }
  assert (Hdef : truthy (get_own h (get_own h m "exports") "default") = true ->
                 In (get_own h (get_own h m "exports") "default") cands).
  { intros Hd. apply Hc. unfold candidates_of. rewrite He, Hg, Hd.
    right. now left. }
  rewrite Hg in He.
  induction todo as [|todo IH]; intros j b s Hs Hinv; cbn [findBulk_filters].
  - split; [exact Hs|]. intros [b' stop] E. cbn in E. now injection E as <-.
  - cbv zeta. unfold bind at 1. rewrite (get_run m "exports" s Hm), Hs.
    set (f := nth j (filterFns b) VUndefined).
    unfold bind at 1.
    destruct (nth_In_or_default j (filterFns b) VUndefined) as [Hin | Hund];
      fold f in Hin || fold f in Hund.
    2:{ rewrite Hund. split; [exact Hs|]. intros [b' stop] E. discriminate. }
    assert (Hf : is_predicate f = true).
    { destruct Hinv as [_ [Hsub _]].
      exact (proj1 (forallb_forall _ _) Hfilters f (Hsub f Hin)). }
    destruct (call_pure W f [get_own h m "exports"] s Hf) as [r [Hr Hsat]].
    rewrite Hr, (Hsat _ eq_refl), Hs.
    set (s1 := log [Called f [get_own h m "exports"]] s).
    assert (Hs1 : heap s1 = h) by exact Hs.
    destruct (satisfies W h f (get_own h m "exports")) eqn:Hse.
    + unfold bind at 1. rewrite (get_run m "exports" s1 Hm), Hs1.
      split; [exact Hs1|].
      intros [b' stop] E. cbn in E. injection E as <-.
      now apply invariant_record_match.
    + unfold bind at 1. rewrite (get_run m "exports" s1 Hm), Hs1.
      unfold bind at 1.
      rewrite (get_run _ "default" s1 (truthy_not_nullish _ He)), Hs1.
      destruct (truthy (get_own h (get_own h m "exports") "default")) eqn:Hd.
      * unfold bind at 1.
        destruct (call_pure W f [get_own h (get_own h m "exports") "default"]
                    s1 Hf) as [r' [Hr' Hsat']].
        rewrite Hr', (Hsat' _ eq_refl), Hs1.
        set (s2 := log [Called f [get_own h (get_own h m "exports") "default"]] s1).
        assert (Hs2 : heap s2 = h) by exact Hs.
        destruct (satisfies W h f (get_own h (get_own h m "exports") "default"))
          eqn:Hsd.
        -- unfold bind at 1. rewrite (get_run m "exports" s2 Hm), Hs2.
           unfold bind at 1.
           rewrite (get_run _ "default" s2 (truthy_not_nullish _ He)), Hs2.
           split; [exact Hs2|].
           intros [b' stop] E. cbn in E. injection E as <-.
           apply invariant_record_match; auto.
        -- apply IH; assumption.
      * apply IH; assumption.
Qed.

Lemma candidates_of_in (entries : Cache) (key : string) (m v : value) :
  In (key, m) entries -> In v (candidates_of h m) -> In v (candidates h entries).
Proof.
  intros Hin Hv. unfold candidates. apply in_flat_map.
  exists (key, m). split; [exact Hin | exact Hv].
Qed.

Lemma findBulk_loop_invariant (n : nat) (entries : Cache) :
  (forall kv, In kv entries -> In kv (entries_of (cache s0))) ->
  forall b s,
    heap s = h ->
    invariant b ->
    good_scan (findBulk_loop W n entries b s).
Proof.
  induction entries as [|[key m] rest IH]; intros Hsub b s Hs Hinv;
    cbn [findBulk_loop].
  - split; [exact Hs|]. intros b' E. cbn in E. now injection E as <-.
  - unfold bind at 1. cbn [gets]. rewrite Hs.
    assert (Hrest : forall kv, In kv rest -> In kv (entries_of (cache s0))).
    { intros kv Hkv. apply Hsub. now right. }
    destruct (truthy (get_opt h m "exports")) eqn:He; cbn [negb].
    + assert (Hc : forall v, In v (candidates_of h m) -> In v cands).
      { intros v Hv. apply (candidates_of_in _ key m); [|exact Hv].
        apply Hsub. now left. }
      pose proof (findBulk_filters_invariant n m n He Hc 0 b s Hs Hinv) as Hf.
      destruct Hf as [Hheap Hret].
      unfold bind at 1.
      destruct (findBulk_filters W n m n 0 b s) as [[[b1 stop] | e] s1];
        cbn [fst snd] in *.
      * specialize (Hret (b1, stop) eq_refl). cbn in Hret. destruct stop.
        -- split; [exact Hheap|]. intros b' E. cbn in E. now injection E as <-.
        -- now apply IH.
      * split; [exact Hheap|]. intros b' E. discriminate.
    + now apply IH.
Qed.

Lemma In_repeat_None (n : nat) (v : value) : ~ In (Some v) (repeat None n).
Proof. intros H. apply repeat_spec in H. discriminate. Qed.

Lemma findBulk_array_invariant (rs : list (option value)) :
  fst (findBulk W filters s0) = Return (BulkArray rs) ->
  List.length rs = List.length filters
  /\ forall v, In (Some v) rs ->
       In v cands /\ exists f, In f filters /\ satisfies W h f v = true.
Proof.
  unfold findBulk.
  destruct (List.length filters) as [|[|n]] eqn:Hn; [discriminate| |].
  - destruct (IS_DEV W); [discriminate|]. unfold bind.
    destruct (find W (nth 0 filters VUndefined) false s0) as [[v|e] s1];
      discriminate.
  - unfold bind at 1. cbn [gets]. unfold bind at 1.
    assert (Hinv0 : invariant (mkBulk filters (repeat None (S (S n))) 0)).
    { split; [|split]; cbn [results filterFns found].
      - now rewrite repeat_length.
      - auto.
      - intros x Hx. exfalso. eapply In_repeat_None. exact Hx. }
    pose proof (findBulk_loop_invariant (S (S n)) (entries_of (cache s0))
                  (fun kv H => H) _ s0 eq_refl Hinv0) as Hl.
    destruct Hl as [_ Hret].
    destruct (findBulk_loop W (S (S n)) (entries_of (cache s0))
                (mkBulk filters (repeat None (S (S n))) 0) s0)
      as [[b | e] s1]; cbn [fst snd] in *; [|discriminate].
    specialize (Hret b eq_refl). destruct Hret as [Hlen [_ Hres]].
    intros E.
    assert (Hrs : rs = results b).
    { unfold bind in E.
      match type of E with
      | context [?c s1] =>
          destruct (c s1) as [[[] | e] s2] eqn:Ec; [|discriminate]
      end.
      cbn in E. now injection E as <-. }
    subst rs. split; [congruence | exact Hres].
Qed.

End Bulk.

(** X4: for filters that are predicates, when [findBulk] returns an array,
    the array has one slot for each filter, and every slot that is filled
    holds a truthy exports or truthy exports.default of the registry that
    one of the filters accepts. *)
Theorem findBulk_array_sound (W : World) (filters : list value) (s : State)
    (rs : list (option value)) :
  forallb is_predicate filters = true ->
  fst (findBulk W filters s) = Return (BulkArray rs) ->
  List.length rs = List.length filters
  /\ forall v, In (Some v) rs ->
       In v (candidates (heap s) (entries_of (cache s)))
       /\ truthy v = true
       /\ exists f, In f filters /\ satisfies W (heap s) f v = true.
Proof.
  intros Hf Hr.
  destruct (findBulk_array_invariant W filters Hf s rs Hr) as [Hlen Hres].
  split; [exact Hlen|]. intros v Hv. destruct (Hres v Hv) as [Hin Hex].
  split; [exact Hin|]. split; [|exact Hex].
  now destruct (candidates_exported _ _ _ Hin).
Qed.

Lemma findBulk_array_sound_witness :
  forallb is_predicate [isB; isA] = true
  /\ fst (findBulk (example_world true) [isB; isA]
            (example_state (Some cache_AB)))
     = Return (BulkArray [Some (VString "B"); Some (VString "A")])
  /\ List.length [Some (VString "B"); Some (VString "A")] = 2.
Proof.
  split; [reflexivity|]. split; [reflexivity|].
  apply (findBulk_array_sound (example_world true) [isB; isA]
           (example_state (Some cache_AB))
           [Some (VString "B"); Some (VString "A")] eq_refl eq_refl).
Defined.

Lemma findBulk_loop_nothing (W : World) (n : nat) (entries : Cache) (b : Bulk)
    (s : State) :
  candidates (heap s) entries = [] ->
  findBulk_loop W n entries b s = (Return b, s).
Proof.
  induction entries as [|[key m] rest IH]; intros Hc; [reflexivity|].
  cbn [candidates flat_map snd] in Hc. apply app_eq_nil in Hc.
  destruct Hc as [Hm Hrest].
  cbn [findBulk_loop]. unfold bind at 1. cbn [gets].
  unfold candidates_of in Hm.
  destruct (truthy (get_opt (heap s) m "exports")); [discriminate|].
  cbn [negb]. now apply IH.
Qed.

(** X5: over a registry that is not there yet, or in which no module has
    truthy exports, [findBulk] of two filters or more calls none of them;
    in strict mode it throws that it found 0 modules, outside development
    builds it logs that warning and returns an array of holes, one for each
    filter, and in a development build with the developer tools open it
    returns that array and logs nothing. *)
Theorem findBulk_nothing_loaded (W : World) (filters : list value) (s : State) :
  2 <= List.length filters ->
  candidates (heap s) (entries_of (cache s)) = [] ->
  let n := List.length filters in
  let err := ("Got " ++ nat_to_string n
              ++ " filters, but only found 0 modules!")%string in
  findBulk W filters s =
  if IS_DEV W then
    if devToolsOpen s
    then (Return (BulkArray (repeat None n)), s)
    else (Throw (Error err), s)
  else (Return (BulkArray (repeat None n)),
        log [Logged LevelWarn err NoContext] s).
Proof.
  intros Hn Hc n err. unfold findBulk. fold n.
  destruct n as [|[|k]] eqn:En; [lia | lia |].
  unfold bind at 1. cbn [gets]. unfold bind at 1.
  rewrite (findBulk_loop_nothing W (S (S k)) _ _ s Hc).
  cbn [found results Nat.eqb negb].
  unfold bind at 1.
  destruct (IS_DEV W); [|reflexivity].
  unfold bind at 1. cbn [gets].
  destruct (devToolsOpen s); reflexivity.
Qed.

Lemma findBulk_nothing_loaded_witness :
  2 <= List.length [isA; isB]
  /\ candidates (heap (example_state None))
                (entries_of (cache (example_state None))) = []
  /\ findBulk (example_world false) [isA; isB] (example_state None)
     = (Return (BulkArray [None; None]),
        log [Logged LevelWarn "Got 2 filters, but only found 0 modules!"
                    NoContext]
            (example_state None)).
Proof.
  assert (H2 : 2 <= List.length [isA; isB]) by (simpl; lia).
  split; [exact H2|]. split; [reflexivity|].
  apply (findBulk_nothing_loaded (example_world false) [isA; isB]
           (example_state None) H2 eq_refl).
Defined.

(** ** Searching the factories *)

Lemma prefix_occurs (c s : string) :
  String.prefix c s = true <-> exists after, s = (c ++ after)%string.
Proof.
  revert s. induction c as [|a c IH]; intros s.
  - split; [intros _; now exists s | intros _; now destruct s].
  - destruct s as [|b s]; simpl.
    + split; [discriminate | intros [after H]; discriminate].
    + destruct (Ascii.ascii_dec a b) as [-> | Hab].
      * rewrite IH. split; intros [after H]; exists after.
        -- now rewrite H.
        -- now injection H.
      * split; [discriminate|]. intros [after H]. injection H as Hb _.
        now symmetry in Hb.
Qed.

(** [includes] is the test that the string occurs, anywhere. *)
Lemma includes_occurs (s c : string) : includes s c = true <-> occurs_in c s.
Proof.
  unfold occurs_in. induction s as [|a s IH]; cbn [includes].
  - destruct (String.prefix c "") eqn:E.
    + split; [|reflexivity]. intros _. apply prefix_occurs in E.
      destruct E as [after E]. now exists ""%string, after.
    + split; [discriminate|]. intros [before [after H]].
      destruct before; simpl in H.
      * assert (Hp : String.prefix c "" = true)
          by (apply prefix_occurs; now exists after).
        congruence.
      * discriminate.
  - destruct (String.prefix c (String a s)) eqn:E.
    + split; [|reflexivity]. intros _. apply prefix_occurs in E.
      destruct E as [after E]. now exists ""%string, after.
    + rewrite IH. split.
      * intros [before [after H]]. exists (String a before), after.
        simpl. now rewrite H.
      * intros [before [after H]]. destruct before as [|b before]; simpl in H.
        -- assert (Hp : String.prefix c (String a s) = true)
             by (apply prefix_occurs; now exists after).
           congruence.
        -- injection H as _ H. now exists before, after.
Qed.

Lemma findModuleId_loop_found (code : list string)
    (factories : list (string * string)) (id : string) :
  findModuleId_loop code factories = Some id ->
  exists before source after,
    factories = before ++ (id, source) :: after
    /\ forallb (includes source) code = true
    /\ forall kv, In kv before -> forallb (includes (snd kv)) code = false.
Proof.
  induction factories as [|[id' src] rest IH]; simpl; [discriminate|].
  destruct (forallb (includes src) code) eqn:E.
  - intros H. injection H as ->. exists [], src, rest. repeat split; auto.
    intros kv [].
  - intros H. destruct (IH H) as [before [source [after [Hf [Hs Hb]]]]].
    exists ((id', src) :: before), source, after. rewrite Hf.
    repeat split; auto. intros kv [<- | Hkv]; auto.
Qed.

Lemma findModuleId_loop_none (code : list string)
    (factories : list (string * string)) :
  findModuleId_loop code factories = None <->
  forall kv, In kv factories -> forallb (includes (snd kv)) code = false.
Proof.
  induction factories as [|[id' src] rest IH]; simpl.
  - split; [intros _ kv [] | reflexivity].
  - destruct (forallb (includes src) code) eqn:E.
    + split; [discriminate|]. intros H.
      specialize (H (id', src) (or_introl eq_refl)). simpl in H. congruence.
    + rewrite IH. split.
      * intros H kv [<- | Hkv]; auto.
      * intros H kv Hkv. apply H. now right.
Qed.

Lemma forallb_false {A : Type} (f : A -> bool) (l : list A) :
  forallb f l = false -> exists x, In x l /\ f x = false.
Proof.
  induction l as [|a l IH]; simpl; [discriminate|].
  destruct (f a) eqn:E; simpl.
  - intros H. destruct (IH H) as [x [Hx Hf]]. eauto.
  - intros _. eauto.
Qed.

Lemma all_occur (source : string) (code : list string) :
  forallb (includes source) code = true <->
  forall c, In c code -> occurs_in c source.
Proof.
  rewrite forallb_forall. split; intros H c Hc; apply includes_occurs; auto.
Qed.

(** X6: with the loader in place, [findModuleId] returns the id of the
    first factory, in the order of [wreq.m], whose source contains every one
    of the given strings; when no factory does, it returns null outside
    strict mode (logging a warning outside development builds) and throws
    in strict mode. *)
Theorem findModuleId_first_factory (W : World) (code : list string) (s : State)
    (r : WebpackInstance) :
  wreq s = Some r ->
  (forall id, fst (findModuleId W code s) = Return (Some id) ->
     exists before source after,
       wreq_m r = before ++ (id, source) :: after
       /\ (forall c, In c code -> occurs_in c source)
       /\ forall id' source', In (id', source') before ->
            exists c, In c code /\ ~ occurs_in c source')
  /\ ((forall id source, In (id, source) (wreq_m r) ->
         exists c, In c code /\ ~ occurs_in c source) ->
      findModuleId W code s =
      if IS_DEV W then
        if devToolsOpen s then (Return None, s)
        else (Throw (Error (no_module_message code)), s)
      else (Return None,
            log [Logged LevelWarn (no_module_message code) NoContext] s))
  /\ ((exists id source, In (id, source) (wreq_m r)
                         /\ forall c, In c code -> occurs_in c source) ->
      exists id, findModuleId W code s = (Return (Some id), s)).
Proof.
  intros Hw.
  assert (Hnot : forall source,
             forallb (includes source) code = false ->
             exists c, In c code /\ ~ occurs_in c source).
  { intros source H.
    destruct (forallb_false (includes source) code H) as [c [Hc Hi]].
    exists c. split; [exact Hc|]. intros Ho. apply includes_occurs in Ho.
    congruence. }
  assert (Hrun : findModuleId W code s =
                 match findModuleId_loop code (wreq_m r) with
                 | Some id => (Return (Some id), s)
                 | None =>
                     if IS_DEV W then
                       if devToolsOpen s then (Return None, s)
                       else (Throw (Error (no_module_message code)), s)
                     else (Return None,
                           log [Logged LevelWarn (no_module_message code)
                                       NoContext] s)
                 end).
  { unfold findModuleId, bind, gets. rewrite Hw.
    destruct (findModuleId_loop code (wreq_m r)); [reflexivity|].
    destruct (IS_DEV W); [destruct (devToolsOpen s)|]; reflexivity. }
  split; [|split].
  - intros id Hid. rewrite Hrun in Hid.
    destruct (findModuleId_loop code (wreq_m r)) as [id'|] eqn:E.
    + injection Hid as ->.
      destruct (findModuleId_loop_found _ _ _ E)
        as [before [source [after [Hf [Hs Hb]]]]].
      exists before, source, after. split; [exact Hf|].
      split; [now apply all_occur|].
      intros id' source' Hin. apply Hnot. exact (Hb (id', source') Hin).
    + destruct (IS_DEV W); [destruct (devToolsOpen s)|]; discriminate.
  - intros Hnone. rewrite Hrun.
    assert (E : findModuleId_loop code (wreq_m r) = None).
    { apply findModuleId_loop_none. intros [id source] Hin. simpl.
      destruct (forallb (includes source) code) eqn:Ef; [|reflexivity].
      destruct (Hnone id source Hin) as [c [Hc Ho]].
      exfalso. apply Ho. now apply (proj1 (all_occur source code) Ef). }
    now rewrite E.
  - intros [id [source [Hin Hall]]]. rewrite Hrun.
    destruct (findModuleId_loop code (wreq_m r)) as [id'|] eqn:E; [eauto|].
    exfalso.
    pose proof (proj1 (findModuleId_loop_none _ _) E (id, source) Hin) as Hf.
    simpl in Hf. apply all_occur in Hall. congruence.
Qed.

Lemma findModuleId_first_factory_witness :
  wreq (example_state None) = Some example_instance
  /\ exists id,
       findModuleId (example_world true) ["n.el("; ".then("] (example_state None)
       = (Return (Some id), example_state None).
Proof.
  split; [reflexivity|].
  destruct (findModuleId_first_factory (example_world true)
              ["n.el("; ".then("] (example_state None) example_instance
              eq_refl) as [_ [_ Hfound]].
  apply Hfound.
  exists "7"%string, "function(e,t,n){n.el(42).then(n.bind(n,42))}"%string.
  split; [now left|].
  intros c Hc. apply includes_occurs.
  destruct Hc as [<- | [<- | []]]; reflexivity.
Defined.

Lemma results_set_fresh (id factory : string) (results : list (string * string)) :
  ~ In id (map fst results) ->
  results_set id factory results = results ++ [(id, factory)].
Proof.
  induction results as [|[id' f'] rest IH]; simpl; [reflexivity|].
  intros H. destruct (String.eqb_spec id' id) as [-> | _].
  - exfalso. apply H. now left.
  - rewrite IH; [reflexivity|]. intros Hin. apply H. now right.
Qed.

Lemma search_loop_filter (filters : list SearchFilter)
    (factories results : list (string * string)) :
  NoDup (map fst (results ++ factories)) ->
  search_loop filters factories results =
  results ++ filter (fun kv => forallb (search_filter_passes (snd kv)) filters)
                    factories.
Proof.
  revert results. induction factories as [|[id f] rest IH]; intros results Hnd.
  - simpl. now rewrite app_nil_r.
  - cbn [search_loop filter snd].
    assert (Hfresh : ~ In id (map fst results)).
    { rewrite map_app in Hnd. cbn [map fst] in Hnd.
      apply NoDup_remove_2 in Hnd. intros Hin. apply Hnd.
      apply in_or_app. now left. }
    destruct (forallb (search_filter_passes f) filters).
    + rewrite IH.
      * rewrite (results_set_fresh id f results Hfresh).
        now rewrite <- app_assoc.
      * rewrite (results_set_fresh id f results Hfresh).
        now rewrite <- app_assoc.
    + apply IH. rewrite map_app in *. cbn [map fst] in Hnd.
      now apply NoDup_remove_1 in Hnd.
Qed.




Lemma forallb_map {A B : Type} (f : B -> bool) (g : A -> B) (l : list A) :
  forallb f (map g l) = forallb (fun a => f (g a)) l.
Proof. induction l as [|a l IH]; simpl; [reflexivity | now rewrite IH]. Qed.

Lemma findModuleId_loop_find (code : list string)
    (factories : list (string * string)) :
  findModuleId_loop code factories =
  option_map fst
    (List.find (fun kv => forallb (includes (snd kv)) code) factories).
Proof.
  induction factories as [|[id src] rest IH]; simpl; [reflexivity|].
  destruct (forallb (includes src) code); [reflexivity | exact IH].
Qed.

(** X8: with the loader in place and the ids of [wreq.m] distinct,
    [findModuleId] of some strings returns the first id of what [search]
    returns for the same strings, and fails exactly when [search] finds
    nothing. *)
Theorem findModuleId_is_first_of_search (W : World) (code : list string)
    (s : State) (r : WebpackInstance) :
  wreq s = Some r ->
  NoDup (map fst (wreq_m r)) ->
  exists found,
    search (map FilterString code) s = (Return found, s)
    /\ match found with
       | (id, _) :: _ => findModuleId W code s = (Return (Some id), s)
       | [] => fst (findModuleId W code s)
               = if strict W s
                 then Throw (Error (no_module_message code))
                 else Return None
       end.
Proof.
  intros Hw Hnd. eexists. split.
  - unfold search, bind, gets, ret. rewrite Hw.
    now rewrite (search_loop_filter (map FilterString code) (wreq_m r) [] Hnd).
  - cbn [app].
    assert (Hsame : forall kv : string * string,
               forallb (search_filter_passes (snd kv)) (map FilterString code)
               = forallb (includes (snd kv)) code).
    { intros kv. now rewrite forallb_map. }
    rewrite (filter_ext _ _ Hsame).
    pose proof (findModuleId_loop_find code (wreq_m r)) as Hloop.
    rewrite find_filter_head in Hloop.
    unfold findModuleId, bind, gets. rewrite Hw, Hloop.
    destruct (filter (fun kv => forallb (includes (snd kv)) code) (wreq_m r))
      as [|[id src] rest]; cbn [hd_error option_map fst].
    + unfold strict.
      destruct (IS_DEV W); [destruct (devToolsOpen s)|]; reflexivity.
    + reflexivity.
Qed.

Lemma findModuleId_is_first_of_search_witness :
  wreq (example_state None) = Some example_instance
  /\ NoDup (map fst (wreq_m example_instance))
  /\ findModuleId (example_world false) ["n.bind("] (example_state None)
     = (Return (Some "7"%string), example_state None).
Proof.
  assert (Hnd : NoDup (map fst (wreq_m example_instance))).
  { simpl. constructor; [intros [] | constructor]. }
  split; [reflexivity|]. split; [exact Hnd|].
  destruct (findModuleId_is_first_of_search (example_world false) ["n.bind("]
              (example_state None) example_instance eq_refl Hnd)
    as [found [Hrun Hfirst]].
  cbn in Hrun. injection Hrun as <-. exact Hfirst.
Defined.

Lemma assoc_NoDup {A : Type} (k : string) (v : A) (l : list (string * A)) :
  NoDup (map fst l) -> In (k, v) l -> assoc k l = Some v.
Proof.
  induction l as [|[k' v'] l IH]; simpl; [intros _ []|].
  intros Hnd Hin. inversion Hnd as [|? ? Hnotin Hnd']; subst.
  destruct (String.eqb_spec k' k) as [-> | Hne].
  - destruct Hin as [E | Hin]; [now injection E as -> |].
    exfalso. apply Hnotin. apply in_map_iff. now exists (k, v).
  - destruct Hin as [E | Hin]; [injection E as -> _; contradiction|].
    now apply IH.
Qed.

(** X9: with the loader in place and the ids of [wreq.m] distinct, the
    factory [findModuleFactory] returns is a factory of [wreq.m] whose
    source contains every one of the given strings, and the call has left
    the state as it was. *)
Theorem findModuleFactory_contains_code (W : World) (code : list string)
    (s s' : State) (r : WebpackInstance) (source : string) :
  wreq s = Some r ->
  NoDup (map fst (wreq_m r)) ->
  findModuleFactory W code s = (Return (Some source), s') ->
  s' = s
  /\ (exists id, id <> ""%string /\ In (id, source) (wreq_m r))
  /\ forall c, In c code -> occurs_in c source.
Proof.
  intros Hw Hnd Hrun.
  destruct (findModuleId_loop code (wreq_m r)) as [id|] eqn:Hid.
  - destruct (String.eqb_spec id "") as [-> | Hne].
    + unfold findModuleFactory, findModuleId, bind, gets, ret in Hrun.
      rewrite Hw, Hid in Hrun. discriminate.
    + rewrite (findModuleFactory_found W code s r id Hw Hid Hne) in Hrun.
      injection Hrun as Hsrc <-.
      destruct (findModuleId_loop_found _ _ _ Hid)
        as [before [src [after [Hf [Hs _]]]]].
      assert (Hin : In (id, src) (wreq_m r)).
      { rewrite Hf. apply in_or_app. right. now left. }
      rewrite (assoc_NoDup id src _ Hnd Hin) in Hsrc. injection Hsrc as ->.
      split; [reflexivity|]. split; [now exists id|]. now apply all_occur.
  - rewrite (findModuleFactory_missing W code s r Hw Hid) in Hrun.
    destruct (IS_DEV W); [destruct (devToolsOpen s)|]; discriminate.
Qed.

Lemma findModuleFactory_contains_code_witness :
  wreq (example_state None) = Some example_instance
  /\ NoDup (map fst (wreq_m example_instance))
  /\ occurs_in ".then(" "function(e,t,n){n.el(42).then(n.bind(n,42))}".
Proof.
  assert (Hnd : NoDup (map fst (wreq_m example_instance))).
  { simpl. constructor; [intros [] | constructor]. }
  split; [reflexivity|]. split; [exact Hnd|].
  destruct (findModuleFactory_contains_code (example_world true) [".then("]
              (example_state None) (example_state None) example_instance
              "function(e,t,n){n.el(42).then(n.bind(n,42))}"
              eq_refl Hnd eq_refl) as [_ [_ Hall]].
  apply Hall. now left.
Defined.

(** ** extractAndLoadChunks, when the capture is taken *)



(** ** _initWebpack, when it does not succeed *)

(** X11: as long as no require function has been handed over (the push of
    the chunk array calls nothing and [wreq] is unset), [_initWebpack]
    returns false and changes nothing, so that it can be called again; and
    no call of [_initWebpack] sets the cache without [wreq] being set. *)
Theorem initWebpack_without_runtime (instance : ChunkArray) (s : State) :
  (push_runtime instance = None -> wreq s = None -> cache s = None ->
     _initWebpack instance s = (Return false, s))
  /\ ((cache s <> None -> wreq s <> None) ->
      cache (snd (_initWebpack instance s)) <> None ->
      wreq (snd (_initWebpack instance s)) <> None).
Proof.
  split.
  - intros Hp Hw Hc. unfold _initWebpack, bind, gets, ret.
    now rewrite Hc, Hp, Hw.
  - unfold _initWebpack, bind, gets, modify, ret.
    destruct (cache s) eqn:Hc; cbn.
    + intros H _. apply H. discriminate.
    + intros _. destruct (push_runtime instance) as [r|]; cbn.
      * intros _. discriminate.
      * destruct (wreq s) eqn:Hw; cbn; [intros _; now rewrite Hw|].
        now rewrite Hc.
Qed.

Lemma initWebpack_without_runtime_witness :
  push_runtime (mkChunkArray None) = None
  /\ _initWebpack (mkChunkArray None)
                  (mkState example_heap [] None None false [] [] [])
     = (Return false, mkState example_heap [] None None false [] [] [])
  /\ fst (_initWebpack (mkChunkArray (Some example_instance))
            (snd (_initWebpack (mkChunkArray None)
                    (mkState example_heap [] None None false [] [] []))))
     = Return true.
Proof.
  split; [reflexivity|].
  destruct (initWebpack_without_runtime (mkChunkArray None)
              (mkState example_heap [] None None false [] [] []))
    as [Hfailed _].
  split; [exact (Hfailed eq_refl eq_refl eq_refl)|].
  rewrite (Hfailed eq_refl eq_refl eq_refl). reflexivity.
Defined.

(** ** findComponent, from the wrapper to the component *)

Lemma nth_app_length {A : Type} (l : list A) (a d : A) (rest : list A) :
  nth (List.length l) (l ++ a :: rest) d = a.
Proof. apply nth_middle. Qed.

Lemma update_nth_app_length {A : Type} (l : list A) (a b : A) (rest : list A) :
  update_nth (List.length l) b (l ++ a :: rest) = l ++ b :: rest.
Proof. induction l as [|x l IH]; simpl; [reflexivity | now rewrite IH]. Qed.

(** What [findComponent] leaves when the cache is not set yet. *)
Lemma findComponent_pending (W : World) (filter : value) (lp : loc) (c : code)
    (isIndirect : bool) (s : State) :
  cache s = None ->
  is_function filter = true ->
  let parse := VFunction lp c in
  let inner := List.length (bindings s) in
  let w := List.length (heap s) in
  findComponent W filter parse isIndirect s =
  (Return (VFunction w (CWrapperComponent inner)),
   mkState
     (heap s ++ [[("$$vencordGetter", VFunction (S w) (CGetter inner))]; [];
                 []])
     (bindings s ++ [NoopComponent W])
     (wreq s) None (devToolsOpen s)
     (map_set filter (VFunction (S (S w)) (CFindComponentCb inner parse))
              (waitForSubscriptions s))
     (if IS_DEV W && negb isIndirect
      then webpackSearchHistory s ++ [("findComponent", [filter])]
      else webpackSearchHistory s)
     (events s)).
Proof.
  intros Hc Hf parse inner w. subst parse inner w.
  destruct s as [h b wr ca d subs hist ev]. cbn in Hc. subst ca.
  destruct filter as [| | | | | | | |lf cf]; try discriminate.
  unfold findComponent, waitFor, bind, closure, alloc, new_binding, set_own,
    read_binding, waitForSubscriptions_set, webpackSearchHistory_push,
    default_arg, modify, gets, ret.
  destruct (IS_DEV W); destruct isIndirect; cbn;
    rewrite <- ?app_assoc; cbn [app];
    rewrite ?nth_app_length, ?update_nth_app_length, ?length_app;
    cbn [List.length set_prop same_function NoopComponent];
    rewrite ?Nat.eqb_refl; cbn;
    rewrite <- ?app_assoc; cbn [app];
    rewrite ?length_app; cbn [List.length];
    replace (List.length h + 1) with (S (List.length h)) by lia;
    replace (List.length h + 3) with (S (S (S (List.length h)))) by lia;
    replace (List.length h + 2) with (S (S (List.length h))) by lia;
    reflexivity.
Qed.

Lemma bindings_bind {A B : Type} (c : M A) (k : A -> M B) (s : State) :
  bindings (snd (c s)) = bindings s ->
  (forall a s1, bindings (snd (k a s1)) = bindings s1) ->
  bindings (snd (bind c k s)) = bindings s.
Proof.
  intros Hc Hk. unfold bind. destruct (c s) as [[a | e] s1]; cbn [snd] in *.
  - now rewrite Hk.
  - exact Hc.
Qed.

Lemma bindings_set_all (l : loc) (ps : props) (c : M unit) :
  (forall s, bindings (snd (c s)) = bindings s) ->
  forall s,
    bindings (snd (fold_left (fun acc kv =>
                                bind acc (fun _ => set_own l (fst kv) (snd kv)))
                             ps c s))
    = bindings s.
Proof.
  revert c. induction ps as [|kv ps IH]; intros c Hc; simpl; [exact Hc|].
  apply IH. intros s. apply bindings_bind; [apply Hc | reflexivity].
Qed.

Lemma bindings_object_assign (target source : value) (s : State) :
  bindings (snd (object_assign target source s)) = bindings s.
Proof.
  unfold object_assign. apply bindings_bind; [reflexivity|]. intros h s1.
  destruct target; try reflexivity.
  - match goal with |- context [existsb ?f ?l] => destruct (existsb f l) end;
      reflexivity.
  - apply bindings_bind; [|reflexivity].
    apply bindings_set_all. reflexivity.
  - apply bindings_bind; [|reflexivity].
    apply bindings_set_all. reflexivity.
Qed.

Lemma nth_update_nth_here {A : Type} (n : nat) (a d : A) (l : list A) :
  n < List.length l -> nth n (update_nth n a l) d = a.
Proof.
  revert n. induction l as [|x l IH]; intros [|n] H; simpl in *;
    try lia; [reflexivity|]. apply IH. lia.
Qed.

(** The callback of [findComponent], with a parse that is a plain function,
    leaves the parsed component in the inner variable. *)
Lemma findComponent_callback_binds (W : World) (l lp : loc) (inner : nat)
    (c : code) (v : value) (s : State) :
  pure_code c = true ->
  inner < List.length (bindings s) ->
  let callback := VFunction l (CFindComponentCb inner (VFunction lp c)) in
  nth inner (bindings (snd (call W callback [v] s))) VUndefined
  = apply_pure W (heap s) c [v].
Proof.
  intros Hc Hin callback. unfold callback.
  change (call W (VFunction l (CFindComponentCb inner (VFunction lp c))) [v] s)
    with (bind (emit (Called (VFunction l (CFindComponentCb inner (VFunction lp c))) [v]))
               (fun _ =>
                bind (call W (VFunction lp c) [v]) (fun parsedComponent =>
                bind (write_binding inner parsedComponent) (fun _ =>
                bind (read_binding inner) (fun InnerComponent =>
                bind (object_assign InnerComponent parsedComponent) (fun _ =>
                ret VUndefined))))) s).
  unfold bind at 1. cbn [emit modify].
  set (s1 := log [Called (VFunction l (CFindComponentCb inner (VFunction lp c))) [v]] s).
  unfold bind at 1.
  assert (E : call W (VFunction lp c) [v] s1
              = (Return (apply_pure W (heap s) c [v]),
                 log [Called (VFunction lp c) [v]] s1)).
  { destruct c; try discriminate; reflexivity. }
  rewrite E. set (parsed := apply_pure W (heap s) c [v]).
  set (s2 := log [Called (VFunction lp c) [v]] s1).
  unfold bind at 1. cbn [write_binding modify].
  unfold bind at 1. cbn [read_binding gets].
  match goal with
  | |- context [bind (object_assign ?t ?src) ?k ?st] =>
      assert (Hb : bindings (snd (bind (object_assign t src) k st))
                   = bindings st)
        by (apply bindings_bind; [apply bindings_object_assign | reflexivity]);
      rewrite Hb
  end.
  cbn [bindings with_bindings]. change (bindings s2) with (bindings s).
  now apply nth_update_nth_here.
Qed.

Lemma getter_gives_inner (W : World) (l : loc) (inner : nat)
    (args : list value) (s : State) :
  fst (call W (VFunction l (CGetter inner)) args s)
  = Return (nth inner (bindings s) VUndefined).
Proof. reflexivity. Qed.

(** X12: while the cache is not set, [findComponent] calls no filter, stores
    one subscription for the filter and returns a new wrapper; the wrapper
    renders NoopComponent and its [$$vencordGetter] gives NoopComponent.
    Once the stored callback has run on a module [v], with a parse that is a
    plain function, the same wrapper renders [parse(v)] and the same getter
    gives [parse(v)]. *)
Theorem findComponent_handle_becomes_component (W : World) (filter : value)
    (lp : loc) (c : code) (isIndirect : bool) (s : State) (v props : value) :
  cache s = None ->
  is_function filter = true ->
  pure_code c = true ->
  let parse := VFunction lp c in
  exists wrapper getter callback s1,
    findComponent W filter parse isIndirect s = (Return wrapper, s1)
    /\ events s1 = events s
    /\ map_get filter (waitForSubscriptions s1) = Some callback
    /\ get_own (heap s1) wrapper "$$vencordGetter" = getter
    /\ fst (call W getter [] s1) = Return (NoopComponent W)
    /\ (exists e s2, call W wrapper [props] s1 = (Return (VObject e), s2)
                     /\ get_own (heap s2) (VObject e) "type" = NoopComponent W)
    /\ let resolved := snd (call W callback [v] s1) in
       let parsed := apply_pure W (heap s1) c [v] in
       fst (call W getter [] resolved) = Return parsed
       /\ exists e s2, call W wrapper [props] resolved = (Return (VObject e), s2)
                       /\ get_own (heap s2) (VObject e) "type" = parsed.
Proof.
  intros Hc Hf Hpure parse.
  pose proof (findComponent_pending W filter lp c isIndirect s Hc Hf) as Hrun.
  cbv zeta in Hrun. fold parse in Hrun.
  set (inner := List.length (bindings s)) in *.
  set (w := List.length (heap s)) in *.
  match type of Hrun with _ = (_, ?st) => set (s1 := st) in * end.
  exists (VFunction w (CWrapperComponent inner)),
         (VFunction (S w) (CGetter inner)),
         (VFunction (S (S w)) (CFindComponentCb inner parse)), s1.
  assert (Hnoop : nth inner (bindings s1) VUndefined = NoopComponent W).
  { unfold s1, inner. cbn [bindings]. apply nth_app_length. }
  split; [exact Hrun|]. split; [reflexivity|].
  split; [apply map_get_set; exact Hf|].
  split.
  { unfold s1, w. cbn [get_own heap]. rewrite nth_app_length. reflexivity. }
  split; [now rewrite getter_gives_inner, Hnoop|].
  split.
  { destruct (WrapperComponent_renders_inner W w inner props s1)
      as [e [s2 [Hcall Htype]]].
    exists e, s2. split; [exact Hcall | now rewrite Htype]. }
  cbv zeta.
  assert (Hbound : inner < List.length (bindings s1)).
  { unfold s1, inner. cbn [bindings]. rewrite length_app. simpl. lia. }
  pose proof (findComponent_callback_binds W (S (S w)) lp inner c v s1
                Hpure Hbound) as Hbinds.
  cbv zeta in Hbinds. fold parse in Hbinds.
  set (resolved := snd (call W (VFunction (S (S w)) (CFindComponentCb inner parse))
                          [v] s1)) in *.
  split; [now rewrite getter_gives_inner, Hbinds|].
  destruct (WrapperComponent_renders_inner W w inner props resolved)
    as [e [s2 [Hcall Htype]]].
  exists e, s2. split; [exact Hcall | now rewrite Htype].
Qed.

Lemma findComponent_handle_becomes_component_witness :
  cache (example_state None) = None
  /\ is_function isComponent = true
  /\ pure_code CIdentity = true
  /\ exists wrapper s1,
       findComponent (example_world false) isComponent (VFunction 1 CIdentity)
                     false (example_state None)
       = (Return wrapper, s1).
Proof.
  split; [reflexivity|]. split; [reflexivity|]. split; [reflexivity|].
  destruct (findComponent_handle_becomes_component (example_world false)
              isComponent 1 CIdentity false (example_state None)
              RealComponent VUndefined eq_refl eq_refl eq_refl)
    as [wrapper [getter [callback [s1 [Hrun _]]]]].
  exists wrapper, s1. exact Hrun.
Defined.

(** ** The map of pending subscriptions *)








(** ** The filters *)

(** X14: a [filters.byCode(...code)] filter accepts exactly the functions
    whose source text contains every one of the strings of [code]; nothing
    that is not a function is accepted. *)
Theorem byCode_accepts_functions_containing_code (toString : value -> string)
    (code : list string) (m : value) :
  byCode_test toString code m = true
  <-> is_function m = true
      /\ forall c, In c code -> occurs_in c (toString m).
Proof.
  unfold byCode_test. rewrite (typeof_function m).
  destruct (is_function m); cbn [negb].
  - rewrite all_occur. tauto.
  - split; [discriminate | intros [H _]; discriminate].
Qed.

Lemma byCode_test_function (toString : value -> string) (code : list string)
    (f : value) :
  byCode_test toString code f = true ->
  is_function f = true /\ forall c, In c code -> occurs_in c (toString f).
Proof.
  unfold byCode_test. rewrite (typeof_function f).
  destruct (is_function f); cbn [negb]; [|discriminate].
  rewrite all_occur. tauto.
Qed.

(** X15: a [filters.componentByCode(...code)] filter accepts whatever the
    [byCode] filter of the same strings accepts; what it accepts besides
    carries a truthy [$$typeof] and wraps, as [type.render], [type] or
    [render], a function whose source contains every string; and a value
    that is no function and has no truthy [$$typeof] is refused. *)
Theorem componentByCode_accepts_wrapped_functions (toString : value -> string)
    (h : Heap) (code : list string) (m : value) :
  (byCode_test toString code m = true ->
   componentByCode_test toString h code m = true)
  /\ (componentByCode_test toString h code m = true ->
      exists f,
        is_function f = true
        /\ (forall c, In c code -> occurs_in c (toString f))
        /\ (f = m
            \/ (truthy (get_opt h m "$$typeof") = true
                /\ (f = get_own h (get_opt h m "type") "render"
                    \/ f = get_opt h m "type"
                    \/ f = get_opt h m "render"))))
  /\ (is_function m = false -> truthy (get_opt h m "$$typeof") = false ->
      componentByCode_test toString h code m = false).
Proof.
  unfold componentByCode_test. repeat split.
  - intros ->. reflexivity.
  - destruct (byCode_test toString code m) eqn:Em.
    + intros _. exists m.
      destruct (byCode_test_function _ _ _ Em). auto.
    + destruct (truthy (get_opt h m "$$typeof")); cbn [negb]; [|discriminate].
      destruct (truthy (get_opt h m "type")); cbn [andb].
      * destruct (truthy (get_own h (get_opt h m "type") "render")).
        -- intros Hf. destruct (byCode_test_function _ _ _ Hf).
           exists (get_own h (get_opt h m "type") "render"). split; [assumption | split; [assumption | right; split; [reflexivity | auto]]].
        -- intros Hf. destruct (byCode_test_function _ _ _ Hf).
           exists (get_opt h m "type"). split; [assumption | split; [assumption | right; split; [reflexivity | auto]]].
      * destruct (truthy (get_opt h m "render")); [|discriminate].
        intros Hf. destruct (byCode_test_function _ _ _ Hf).
        exists (get_opt h m "render"). split; [assumption | split; [assumption | right; split; [reflexivity | auto]]].
  - intros Hm Ht.
    assert (Em : byCode_test toString code m = false).
    { unfold byCode_test. rewrite (typeof_function m), Hm. reflexivity. }
    rewrite Em, Ht. reflexivity.
Qed.




(** ** findComponent, when the component is loaded already *)

(** [findComponent] up to its call of [waitFor]. *)
Lemma findComponent_prelude (W : World) (filter : value) (lp : loc) (c : code)
    (isIndirect : bool) (s : State) :
  is_function filter = true ->
  let parse := VFunction lp c in
  let inner := List.length (bindings s) in
  let w := List.length (heap s) in
  let WrapperComponent := VFunction w (CWrapperComponent inner) in
  findComponent W filter parse isIndirect s =
  (waitFor W filter (VFunction (S (S w)) (CFindComponentCb inner parse)) true ;;
   InnerComponent <- read_binding inner ;;
   if negb (same_function InnerComponent (NoopComponent W))
   then ret InnerComponent
   else ret WrapperComponent)
    (mkState
       (heap s ++ [[("$$vencordGetter", VFunction (S w) (CGetter inner))]; [];
                   []])
       (bindings s ++ [NoopComponent W])
       (wreq s) (cache s) (devToolsOpen s) (waitForSubscriptions s)
       (if IS_DEV W && negb isIndirect
        then webpackSearchHistory s ++ [("findComponent", [filter])]
        else webpackSearchHistory s)
       (events s)).
Proof.
  intros Hf parse inner w WrapperComponent.
  subst parse inner w WrapperComponent.
  destruct s as [h b wr ca d subs hist ev].
  destruct filter as [| | | | | | | |lf cf]; try discriminate.
  unfold findComponent.
  cbn [default_arg is_undefined typeof String.eqb Ascii.eqb Bool.eqb negb].
  unfold bind at 1. cbn [ret].
  cbn [typeof String.eqb Ascii.eqb Bool.eqb negb].
  unfold bind at 1.
  assert (E : forall st, (if IS_DEV W && negb isIndirect
                then webpackSearchHistory_push "findComponent" [VFunction lf cf]
                else ret tt) st
              = (Return tt,
                 if IS_DEV W && negb isIndirect
                 then with_history (webpackSearchHistory st
                                    ++ [("findComponent", [VFunction lf cf])]) st
                 else st)).
  { intros st. destruct (IS_DEV W && negb isIndirect); reflexivity. }
  rewrite E. clear E.
  unfold bind at 1, new_binding at 1.
  unfold bind at 1, alloc at 1.
  unfold bind at 1, closure at 1, bind at 1, alloc at 1, ret at 1.
  unfold bind at 1, set_own at 1, modify at 1.
  unfold bind at 1, closure at 1, bind at 1, alloc at 1, ret at 1.
  destruct (IS_DEV W && negb isIndirect);
    cbn [heap bindings wreq cache devToolsOpen waitForSubscriptions
         webpackSearchHistory events with_heap with_bindings with_history
         fst snd];
    rewrite <- ?app_assoc; cbn [app];
    rewrite ?nth_app_length, ?update_nth_app_length, ?length_app;
    cbn [List.length set_prop];
    rewrite <- ?app_assoc; cbn [app];
    rewrite ?length_app; cbn [List.length];
    replace (List.length h + 1) with (S (List.length h)) by lia;
    replace (List.length h + 2) with (S (S (List.length h))) by lia;
    reflexivity.
Qed.

Lemma set_all_returns (l : loc) (ps : props) (c : M unit) :
  (forall s, fst (c s) = Return tt) ->
  forall s,
    fst (fold_left (fun acc kv =>
                      bind acc (fun _ => set_own l (fst kv) (snd kv)))
                   ps c s)
    = Return tt.
Proof.
  revert c. induction ps as [|kv ps IH]; intros c Hc; simpl; [exact Hc|].
  apply IH. intros s. unfold bind.
  specialize (Hc s). destruct (c s) as [[[]|e] s1]; [reflexivity | discriminate].
Qed.

Lemma object_assign_function_returns (target source : value) (s : State) :
  is_function target = true ->
  fst (object_assign target source s) = Return target.
Proof.
  destruct target as [| | | | | | | |l c]; try discriminate. intros _.
  unfold object_assign. unfold bind at 1. cbn [gets].
  unfold bind at 1.
  match goal with
  | |- context [fold_left ?f ?ps ?c0 s] =>
      pose proof (set_all_returns l ps c0 (fun _ => eq_refl) s) as H;
      destruct (fold_left f ps c0 s) as [[[]|e] s1]
  end; [reflexivity | discriminate].
Qed.

(** The callback of [findComponent] returns when the parsed component is a
    function. *)
Lemma findComponent_callback_returns (W : World) (l lp : loc) (inner : nat)
    (c : code) (v : value) (s : State) :
  pure_code c = true ->
  inner < List.length (bindings s) ->
  is_function (apply_pure W (heap s) c [v]) = true ->
  fst (call W (VFunction l (CFindComponentCb inner (VFunction lp c))) [v] s)
  = Return VUndefined.
Proof.
  intros Hc Hin Hfun.
  change (call W (VFunction l (CFindComponentCb inner (VFunction lp c))) [v] s)
    with (bind (emit (Called (VFunction l (CFindComponentCb inner (VFunction lp c))) [v]))
               (fun _ =>
                bind (call W (VFunction lp c) [v]) (fun parsedComponent =>
                bind (write_binding inner parsedComponent) (fun _ =>
                bind (read_binding inner) (fun InnerComponent =>
                bind (object_assign InnerComponent parsedComponent) (fun _ =>
                ret VUndefined))))) s).
  unfold bind at 1. cbn [emit modify].
  set (s1 := log [Called (VFunction l (CFindComponentCb inner (VFunction lp c))) [v]] s).
  unfold bind at 1.
  assert (E : call W (VFunction lp c) [v] s1
              = (Return (apply_pure W (heap s) c [v]),
                 log [Called (VFunction lp c) [v]] s1)).
  { destruct c; try discriminate; reflexivity. }
  rewrite E. set (parsed := apply_pure W (heap s) c [v]) in *.
  set (s2 := log [Called (VFunction lp c) [v]] s1).
  unfold bind at 1. cbn [write_binding modify].
  unfold bind at 1. cbn [read_binding gets].
  cbn [bindings with_bindings]. change (bindings s2) with (bindings s).
  rewrite (nth_update_nth_here inner parsed VUndefined (bindings s) Hin).
  unfold bind at 1.
  match goal with
  | |- context [object_assign ?t ?src ?st] =>
      pose proof (object_assign_function_returns t src st Hfun) as Ho;
      destruct (object_assign t src st) as [[r|e] s3]
  end; [reflexivity | discriminate].
Qed.

(** X17: when a candidate of the registry satisfies the filter already,
    [findComponent] runs its callback at once on the first such candidate
    [v], stores no subscription and, for a parse that is a plain function
    giving a function [parse(v)], returns [parse(v)] itself rather than the
    wrapper (unless [parse(v)] is NoopComponent); the wrapper's getter gives
    [parse(v)] too.  The candidates are read in the store as it is once the
    wrapper, its getter and the callback are allocated. *)
Theorem findComponent_returns_loaded_component (W : World) (filter : value)
    (lp : loc) (c : code) (isIndirect : bool) (s : State) (v : value) :
  is_predicate filter = true ->
  pure_code c = true ->
  let parse := VFunction lp c in
  let inner := List.length (bindings s) in
  let w := List.length (heap s) in
  let getter := VFunction (S w) (CGetter inner) in
  let h1 := heap s ++ [[("$$vencordGetter", getter)]; []; []] in
  List.find (satisfies W h1 filter) (candidates h1 (entries_of (cache s)))
  = Some v ->
  let parsed := apply_pure W h1 c [v] in
  is_function parsed = true ->
  exists s2,
    findComponent W filter parse isIndirect s
    = (Return (if same_function parsed (NoopComponent W)
               then VFunction w (CWrapperComponent inner)
               else parsed), s2)
    /\ waitForSubscriptions s2 = waitForSubscriptions s
    /\ fst (call W getter [] s2) = Return parsed.
Proof.
  intros HP Hc parse inner w getter h1 Hfind parsed Hfun.
  assert (Hf : is_function filter = true)
    by (destruct filter; try discriminate; reflexivity).
  pose proof (findComponent_prelude W filter lp c isIndirect s Hf) as Hrun.
  cbv zeta in Hrun. fold parse inner w getter h1 in Hrun.
  match type of Hrun with _ = _ ?st => set (s1 := st) in * end.
  set (cb := VFunction (S (S w)) (CFindComponentCb inner parse)) in *.
  pose proof (waitFor_run W filter cb true s1 HP eq_refl) as Hwait.
  cbv zeta in Hwait. rewrite andb_false_r in Hwait.
  change (heap s1) with h1 in Hwait. change (cache s1) with (cache s) in Hwait.
  rewrite Hfind in Hwait.
  set (s1' := log (test_events filter
                     (tested (satisfies W h1 filter)
                             (candidates h1 (entries_of (cache s))))) s1) in *.
  assert (Hbound : inner < List.length (bindings s1')).
  { unfold s1', s1, inner. cbn [bindings log with_events].
    rewrite length_app. simpl. lia. }
  pose proof (findComponent_callback_returns W (S (S w)) lp inner c v s1'
                Hc Hbound Hfun) as Hret.
  pose proof (findComponent_callback_binds W (S (S w)) lp inner c v s1'
                Hc Hbound) as Hbinds.
  cbv zeta in Hbinds.
  pose proof (preserves_call W cb [v] s1') as [_ [_ [_ [Hsubs _]]]].
  fold parse in Hret, Hbinds. fold cb in Hret, Hbinds.
  change (heap s1') with h1 in Hbinds. fold parsed in Hbinds.
  rewrite Hrun. unfold bind at 1. rewrite Hwait.
  destruct (call W cb [v] s1') as [[r|e] s2]; [|discriminate].
  cbn [fst snd] in *.
  exists s2. unfold bind, read_binding, gets, ret.
  rewrite Hbinds.
  destruct (same_function parsed (NoopComponent W)); cbn [negb];
    (split; [reflexivity|]); (split; [exact Hsubs|]);
    unfold getter; now rewrite getter_gives_inner, Hbinds.
Qed.

Lemma findComponent_returns_loaded_component_witness :
  is_predicate isComponent = true
  /\ pure_code CIdentity = true
  /\ fst (findComponent (example_world false) isComponent (VFunction 1 CIdentity)
            false (example_state (Some [("9", VObject 9)])))
     = Return RealComponent.
Proof.
  split; [reflexivity|]. split; [reflexivity|].
  destruct (findComponent_returns_loaded_component (example_world false)
              isComponent 1 CIdentity false
              (example_state (Some [("9", VObject 9)])) RealComponent
              eq_refl eq_refl eq_refl eq_refl)
    as [s2 [Hrun _]].
  rewrite Hrun. reflexivity.
Defined.
